(** * GitHub wiki operations: a shallow embedding of [src/wiki-operations.ts]

    The development follows the source file top to bottom:

    - JavaScript strings are sequences of UTF-16 code units ([list N]);
      the two global regular-expression replacements of
      [normalizePageName] are run by a small matcher for the two pattern
      shapes the source uses.
    - Files hold bytes.  [fs.writeFile(_, _, 'utf-8')] and
      [fs.readFile(_, 'utf-8')] go through a UTF-8 encoder and decoder.
    - The five exported operations are written in a state-and-exception
      monad over a world made of the remote wiki stores, the temporary
      directories on the local disk and a log of the effects performed.
      Everything the operations do not control (a failing clone, a
      rejected push, a full disk, the random directory suffix) is read
      from an environment record. *)

From Stdlib Require Import NArith ZArith Ascii String List Sorted Permutation Lia.
From stdpp Require Import base option list gmap.
Import ListNotations.
Local Open Scope N_scope.

(** ** JavaScript strings *)

(** A string is the list of its UTF-16 code units. *)
Abbreviation jsstring := (list N) (only parsing).
Abbreviation bytes := (list N) (only parsing).

(** An ASCII literal of the source as a list of code units. *)
Definition js (s : string) : jsstring :=
  List.map N_of_ascii (list_ascii_of_string s).

(** [s.endsWith(suffix)] *)
Definition endsWith (s suffix : jsstring) : bool :=
  bool_decide (drop (length s - length suffix)%nat s = suffix).

(** [s.startsWith(p)], used by the string form of [replace]. *)
Fixpoint startsWith (s p : jsstring) : bool :=
  match p, s with
  | [], _ => true
  | _ :: _, [] => false
  | x :: p', y :: s' => (x =? y) && startsWith s' p'
  end.

(** [s.replace(pat, rep)] with a string pattern: only the first
    occurrence of [pat] is replaced. *)
Fixpoint replace_first (pat rep s : jsstring) : jsstring :=
  if startsWith s pat then rep ++ drop (length pat) s
  else match s with
       | [] => []
       | c :: r => c :: replace_first pat rep r
       end.

(** JavaScript truthiness of a string: the empty string is falsy. *)
Definition truthy (s : jsstring) : bool :=
  match s with [] => false | _ :: _ => true end.

(** ** Regular expressions of [normalizePageName] *)

(** The class [\s] of ECMAScript: WhiteSpace and LineTerminator code
    points. *)
Definition is_space (c : N) : bool :=
  ((9 <=? c) && (c <=? 13)) || (c =? 32) || (c =? 160) || (c =? 5760)
  || ((8192 <=? c) && (c <=? 8202)) || (c =? 8232) || (c =? 8233)
  || (c =? 8239) || (c =? 8287) || (c =? 12288) || (c =? 65279).

(** The positive part of the class [[^a-zA-Z0-9\-_]]. *)
Definition is_word (c : N) : bool :=
  ((97 <=? c) && (c <=? 122)) || ((65 <=? c) && (c <=? 90))
  || ((48 <=? c) && (c <=? 57)) || (c =? 45) || (c =? 95).

Definition not_word (c : N) : bool := negb (is_word c).

(** The two pattern shapes of the source: one character of a class
    ([[...]]) and a greedy non-empty run of a class ([\s+]). *)
Inductive pattern : Type :=
| One (cls : N → bool)
| Many (cls : N → bool).

(** Longest prefix of [s] made of characters of [cls]. *)
Fixpoint span (cls : N → bool) (s : jsstring) : nat :=
  match s with
  | c :: r => if cls c then S (span cls r) else 0%nat
  | [] => 0%nat
  end.

(** Length of the match of a pattern anchored at the start of [s];
    neither pattern matches the empty string. *)
Definition match_here (p : pattern) (s : jsstring) : option nat :=
  match p, s with
  | One cls, c :: _ => if cls c then Some 1%nat else None
  | Many cls, c :: _ => if cls c then Some (span cls s) else None
  | _, [] => None
  end.

(** [s.replace(/p/g, rep)]: scan from the left, replace each match and
    resume right after it.  A match has at least one character, so the
    length of the input is enough fuel. *)
Fixpoint replace_global_from (fuel : nat) (p : pattern) (rep s : jsstring)
  : jsstring :=
  match fuel, s with
  | _, [] => []
  | O, _ => s
  | S fuel', c :: r =>
      match match_here p s with
      | Some n => rep ++ replace_global_from fuel' p rep (drop n s)
      | None => c :: replace_global_from fuel' p rep r
      end
  end.

Definition replace_global (p : pattern) (rep s : jsstring) : jsstring :=
  replace_global_from (length s) p rep s.

(** ** Page names *)

Definition md : jsstring := js ".md".

(** [normalizePageName], lines 41-47. *)
Definition normalizePageName (pageName : jsstring) : jsstring :=
  let normalized :=
    replace_global (One not_word) []
      (replace_global (Many is_space) (js "-") pageName) in
  if endsWith normalized md then normalized else normalized ++ md.

(** *** The resolver as the specification words it

    Step (a) cuts the title into its maximal runs of whitespace and of
    non-whitespace and turns each whitespace run into one hyphen. *)
Fixpoint runs (s : jsstring) : list (bool * jsstring) :=
  match s with
  | [] => []
  | c :: r =>
      match runs r with
      | (b, g) :: gs =>
          if Bool.eqb b (is_space c) then (b, c :: g) :: gs
          else (is_space c, [c]) :: (b, g) :: gs
      | [] => [(is_space c, [c])]
      end
  end.

(** Adjacent runs are of different kinds: a run cannot be extended. *)
Fixpoint alternating (l : list (bool * jsstring)) : Prop :=
  match l with
  | (b1, _) :: l' =>
      match l' with
      | (b2, _) :: _ => b1 ≠ b2 ∧ alternating l'
      | [] => True
      end
  | [] => True
  end.

(** A run of whitespace becomes a hyphen; any other run stays. *)
Definition hyphen_or_run (bg : bool * jsstring) : jsstring :=
  let '(b, g) := bg in if b then js "-" else g.

Definition spec_hyphenate (s : jsstring) : jsstring :=
  concat (List.map hyphen_or_run (runs s)).

Definition spec_strip (s : jsstring) : jsstring := List.filter is_word s.

Definition spec_extend (s : jsstring) : jsstring :=
  if bool_decide (suffix md s) then s else s ++ md.

Definition spec_normalize (t : jsstring) : jsstring :=
  spec_extend (spec_strip (spec_hyphenate t)).

(** Number of maximal whitespace runs of a title. *)
Definition space_runs (s : jsstring) : nat :=
  length (List.filter fst (runs s)).


(** ** UTF-8 transcoding

    [fs.writeFile(path, text, 'utf-8')] stores the UTF-8 encoding of the
    code points of [text]; [fs.readFile(path, 'utf-8')] decodes the bytes
    of the file.  An unpaired surrogate is written as U+FFFD, and every
    maximal ill-formed byte sequence is read as U+FFFD.  No byte-order
    mark is added or removed. *)

Definition is_high (c : N) : bool := (0xD800 <=? c) && (c <=? 0xDBFF).
Definition is_low (c : N) : bool := (0xDC00 <=? c) && (c <=? 0xDFFF).
Definition replacement : N := 0xFFFD.

(** Code points of a string (UTF-16 decoding). *)
Fixpoint code_points (s : jsstring) : list N :=
  match s with
  | [] => []
  | h :: r =>
      if is_high h then
        match r with
        | l :: r' =>
            if is_low l
            then (0x10000 + (h - 0xD800) * 0x400 + (l - 0xDC00)) :: code_points r'
            else replacement :: code_points r
        | [] => [replacement]
        end
      else if is_low h then replacement :: code_points r
      else h :: code_points r
  end.

(** Code units of a code point (UTF-16 encoding). *)
Definition utf16_units (cp : N) : jsstring :=
  if cp <? 0x10000 then [cp]
  else [0xD800 + (cp - 0x10000) / 0x400; 0xDC00 + (cp - 0x10000) mod 0x400].

Definition utf8_bytes (cp : N) : bytes :=
  if cp <? 0x80 then [cp]
  else if cp <? 0x800 then [0xC0 + cp / 64; 0x80 + cp mod 64]
  else if cp <? 0x10000 then
    [0xE0 + cp / 4096; 0x80 + (cp / 64) mod 64; 0x80 + cp mod 64]
  else
    [0xF0 + cp / 262144; 0x80 + (cp / 4096) mod 64;
     0x80 + (cp / 64) mod 64; 0x80 + cp mod 64].

Definition is_cont (b : N) : bool := (0x80 <=? b) && (b <=? 0xBF).

(** Range of the second byte after a three-byte lead (no overlong forms,
    no surrogates) and after a four-byte lead (no overlong forms, nothing
    above U+10FFFF). *)
Definition second_of_3 (b0 b1 : N) : bool :=
  ((if b0 =? 0xE0 then 0xA0 else 0x80) <=? b1)
  && (b1 <=? (if b0 =? 0xED then 0x9F else 0xBF)).

Definition second_of_4 (b0 b1 : N) : bool :=
  ((if b0 =? 0xF0 then 0x90 else 0x80) <=? b1)
  && (b1 <=? (if b0 =? 0xF4 then 0x8F else 0xBF)).

Fixpoint utf8_code_points (b : bytes) : list N :=
  match b with
  | [] => []
  | b0 :: r =>
      if b0 <? 0x80 then b0 :: utf8_code_points r
      else if (0xC2 <=? b0) && (b0 <=? 0xDF) then
        match r with
        | b1 :: r1 =>
            if is_cont b1
            then ((b0 - 0xC0) * 64 + (b1 - 0x80)) :: utf8_code_points r1
            else replacement :: utf8_code_points r
        | [] => [replacement]
        end
      else if (0xE0 <=? b0) && (b0 <=? 0xEF) then
        match r with
        | b1 :: r1 =>
            if second_of_3 b0 b1 then
              match r1 with
              | b2 :: r2 =>
                  if is_cont b2
                  then ((b0 - 0xE0) * 4096 + (b1 - 0x80) * 64 + (b2 - 0x80))
                         :: utf8_code_points r2
                  else replacement :: utf8_code_points r1
              | [] => [replacement]
              end
            else replacement :: utf8_code_points r
        | [] => [replacement]
        end
      else if (0xF0 <=? b0) && (b0 <=? 0xF4) then
        match r with
        | b1 :: r1 =>
            if second_of_4 b0 b1 then
              match r1 with
              | b2 :: r2 =>
                  if is_cont b2 then
                    match r2 with
                    | b3 :: r3 =>
                        if is_cont b3
                        then ((b0 - 0xF0) * 262144 + (b1 - 0x80) * 4096
                              + (b2 - 0x80) * 64 + (b3 - 0x80))
                               :: utf8_code_points r3
                        else replacement :: utf8_code_points r2
                    | [] => [replacement]
                    end
                  else replacement :: utf8_code_points r1
              | [] => [replacement]
              end
            else replacement :: utf8_code_points r
        | [] => [replacement]
        end
      else replacement :: utf8_code_points r
  end.

Definition utf8_encode (s : jsstring) : bytes :=
  concat (List.map utf8_bytes (code_points s)).

Definition utf8_decode (b : bytes) : jsstring :=
  concat (List.map utf16_units (utf8_code_points b)).

(** A Unicode scalar value: a code point that is not a surrogate. *)
Definition scalar (cp : N) : Prop :=
  cp < 0x110000 ∧ (cp < 0xD800 ∨ 0xDFFF < cp).

(** Well-formed text: code units below 2^16, every surrogate paired. *)
Fixpoint well_formed (s : jsstring) : bool :=
  match s with
  | [] => true
  | h :: r =>
      if is_high h then
        match r with
        | l :: r' => is_low l && well_formed r'
        | [] => false
        end
      else negb (is_low h) && (h <? 0x10000) && well_formed r
  end.

(** ** The world the operations run in *)

(** The primitives of [fs/promises] and [simple-git] the source calls. *)
Inductive prim : Type :=
| Mkdtemp | Rm | Access | ReadFile | WriteFile | Unlink | Readdir | Stat
| GitClone | GitAdd | GitCommit | GitPush.

(** The errors an operation can throw, by the place that creates them:
    a rejection of a primitive, the wrapper of [cloneWiki] (line 71) and
    the missing-page error of the delete and read operations (lines 220
    and 259). *)
Inductive error : Type :=
| External (p : prim) (msg : jsstring)
| CloneFailed (msg : jsstring)
| PageNotFound (fileName : jsstring).

(** [error.message] *)
Definition message (e : error) : jsstring :=
  match e with
  | External _ msg => msg
  | CloneFailed msg => js "Failed to clone wiki: " ++ msg
  | PageNotFound fileName => js "Page " ++ fileName ++ js " does not exist"
  end.

(** What is observable of a run: every call of a primitive with its main
    argument, and the warning of [cleanup]. *)
Inductive event : Type :=
| Called (p : prim) (arg : jsstring)
| Warned (tmpDir : jsstring).

(** A clone on the local disk: where it came from, the files at its
    root, the staged snapshot and the last commit. *)
Record workcopy : Type := {
  origin : jsstring;
  tree : gmap jsstring bytes;
  index : gmap jsstring bytes;
  head : gmap jsstring bytes
}.

(** The remote stores by clone URL (each one the files at the root of
    its [master] branch), the temporary directories, the log. *)
Record world : Type := {
  remotes : gmap jsstring (gmap jsstring bytes);
  dirs : gmap jsstring workcopy;
  log : list event
}.

(** What the operation does not decide: the temporary-file area, the
    characters [mkdtemp] appends, and which calls are rejected, with the
    message of the rejection. *)
Record env : Type := {
  os_tmpdir : jsstring;
  mkdtemp_suffix : jsstring;
  fault : prim → jsstring → option jsstring
}.

(** A path below a temporary directory.  The file names the operations
    join are outputs of [normalizePageName] or entries of [readdir], so
    they hold no separator and [path.join] is the pair. *)
Record filepath : Type := { dirname : jsstring; basename : jsstring }.

Definition path_join (dir name : jsstring) : filepath :=
  {| dirname := dir; basename := name |}.

Definition path_string (p : filepath) : jsstring :=
  dirname p ++ js "/" ++ basename p.

(** The state of a running operation: the world and the local variable
    [tmpDir] of the operation ([let tmpDir: string | null = null]). *)
Record state : Type := {
  the_world : world;
  var_tmpDir : option jsstring
}.

Inductive result (A : Type) : Type :=
| Ok (a : A)
| Throw (e : error).
Arguments Ok {A} a.
Arguments Throw {A} e.

Definition M (A : Type) : Type := env → state → result A * state.

Definition ret {A} (a : A) : M A := λ _ s, (Ok a, s).

Definition bind {A B} (m : M A) (k : A → M B) : M B :=
  λ e s, match m e s with
         | (Ok a, s') => k a e s'
         | (Throw err, s') => (Throw err, s')
         end.

Definition throw {A} (err : error) : M A := λ _ s, (Throw err, s).

(** [try { m } catch (error) { h error }] *)
Definition try_catch {A} (m : M A) (h : error → M A) : M A :=
  λ e s, match m e s with
         | (Ok a, s') => (Ok a, s')
         | (Throw err, s') => h err e s'
         end.

(** [try { m } finally { f }]: [f] runs on both exits; when [f] itself
    throws, its error replaces the outcome of [m]. *)
Definition try_finally {A} (m : M A) (f : M unit) : M A :=
  λ e s, match m e s with
         | (r, s') =>
             match f e s' with
             | (Ok _, s'') => (r, s'')
             | (Throw err, s'') => (Throw err, s'')
             end
         end.

(** The monad operations under stdpp's notations [x ← m; k] and
    [m;; k]. *)
Global Instance M_ret : MRet M := @ret.
Global Instance M_bind : MBind M := λ A B k m, bind m k.

Definition get_world : M world := λ _ s, (Ok (the_world s), s).
Definition put_world (w : world) : M unit :=
  λ _ s, (Ok (), {| the_world := w; var_tmpDir := var_tmpDir s |}).
Definition get_env : M env := λ e s, (Ok e, s).
Definition get_tmpDir : M (option jsstring) := λ _ s, (Ok (var_tmpDir s), s).
Definition set_tmpDir (v : option jsstring) : M unit :=
  λ _ s, (Ok (), {| the_world := the_world s; var_tmpDir := v |}).

Definition with_remotes (r : gmap jsstring (gmap jsstring bytes)) (w : world) :=
  {| remotes := r; dirs := dirs w; log := log w |}.
Definition with_dirs (d : gmap jsstring workcopy) (w : world) :=
  {| remotes := remotes w; dirs := d; log := log w |}.
Definition with_log (l : list event) (w : world) :=
  {| remotes := remotes w; dirs := dirs w; log := l |}.
Definition with_tree (t : gmap jsstring bytes) (c : workcopy) :=
  {| origin := origin c; tree := t; index := index c; head := head c |}.
Definition with_index (i : gmap jsstring bytes) (c : workcopy) :=
  {| origin := origin c; tree := tree c; index := i; head := head c |}.
Definition with_head (h : gmap jsstring bytes) (c : workcopy) :=
  {| origin := origin c; tree := tree c; index := index c; head := h |}.

Definition emit (ev : event) : M unit :=
  w ← get_world; put_world (with_log (log w ++ [ev]) w).

(** Every primitive starts the same way: the call is logged and, when
    the environment rejects it, the rejection is thrown. *)
Definition call (p : prim) (arg : jsstring) : M unit :=
  emit (Called p arg);;
  e ← get_env;
  match fault e p arg with
  | Some msg => throw (External p msg)
  | None => ret ()
  end.

(** The working copy of a directory; [ENOENT] when there is none. *)
Definition the_dir (p : prim) (dir : jsstring) : M workcopy :=
  w ← get_world;
  match dirs w !! dir with
  | Some c => ret c
  | None => throw (External p (js "ENOENT"))
  end.

Definition put_dir (dir : jsstring) (c : workcopy) : M unit :=
  w ← get_world; put_world (with_dirs (<[dir := c]> (dirs w)) w).

(** *** [fs/promises] *)

(** [fs.mkdtemp(prefix)] creates the empty directory [prefix ++ suffix]
    and fails when it cannot create a new one. *)
Definition fs_mkdtemp (prefix : jsstring) : M jsstring :=
  call Mkdtemp prefix;;
  e ← get_env;
  w ← get_world;
  let dir := prefix ++ mkdtemp_suffix e in
  match dirs w !! dir with
  | Some _ => throw (External Mkdtemp (js "EEXIST"))
  | None =>
      put_dir dir {| origin := []; tree := ∅; index := ∅; head := ∅ |};;
      ret dir
  end.

(** [fs.rm(dir, { recursive: true, force: true })]: a missing directory
    is not an error. *)
Definition fs_rm (dir : jsstring) : M unit :=
  call Rm dir;;
  w ← get_world; put_world (with_dirs (delete dir (dirs w)) w).

Definition fs_access (p : filepath) : M unit :=
  call Access (path_string p);;
  c ← the_dir Access (dirname p);
  match tree c !! basename p with
  | Some _ => ret ()
  | None => throw (External Access (js "ENOENT"))
  end.

Definition fs_readFile (p : filepath) : M jsstring :=
  call ReadFile (path_string p);;
  c ← the_dir ReadFile (dirname p);
  match tree c !! basename p with
  | Some b => ret (utf8_decode b)
  | None => throw (External ReadFile (js "ENOENT"))
  end.

Definition fs_writeFile (p : filepath) (data : jsstring) : M unit :=
  call WriteFile (path_string p);;
  c ← the_dir WriteFile (dirname p);
  put_dir (dirname p) (with_tree (<[basename p := utf8_encode data]> (tree c)) c).

Definition fs_unlink (p : filepath) : M unit :=
  call Unlink (path_string p);;
  c ← the_dir Unlink (dirname p);
  match tree c !! basename p with
  | Some _ => put_dir (dirname p) (with_tree (delete (basename p) (tree c)) c)
  | None => throw (External Unlink (js "ENOENT"))
  end.

(** [fs.readdir(dir)]: the repository directory and the files at the
    root. *)
Definition fs_readdir (dir : jsstring) : M (list jsstring) :=
  call Readdir dir;;
  c ← the_dir Readdir dir;
  ret (js ".git" :: (map_to_list (tree c)).*1).

(** [(await fs.stat(p)).size] *)
Definition fs_stat_size (p : filepath) : M N :=
  call Stat (path_string p);;
  c ← the_dir Stat (dirname p);
  match tree c !! basename p with
  | Some b => ret (N.of_nat (length b))
  | None => throw (External Stat (js "ENOENT"))
  end.

(** *** [simple-git] *)

(** [git.clone(url, dir)] checks the remote store out into [dir]. *)
Definition git_clone (url dir : jsstring) : M unit :=
  call GitClone url;;
  w ← get_world;
  match remotes w !! url with
  | Some files =>
      put_dir dir {| origin := url; tree := files; index := files; head := files |}
  | None => throw (External GitClone (js "repository not found"))
  end.

(** [simpleGit(dir).add(fileName)] stages the file as it is in the tree:
    its content, or its removal. *)
Definition git_add (dir fileName : jsstring) : M unit :=
  call GitAdd fileName;;
  c ← the_dir GitAdd dir;
  match tree c !! fileName, index c !! fileName with
  | Some b, _ => put_dir dir (with_index (<[fileName := b]> (index c)) c)
  | None, Some _ => put_dir dir (with_index (delete fileName (index c)) c)
  | None, None => throw (External GitAdd (js "pathspec did not match any files"))
  end.

Definition git_commit (dir msg : jsstring) : M unit :=
  call GitCommit msg;;
  c ← the_dir GitCommit dir;
  put_dir dir (with_head (index c) c).

(** [simpleGit(dir).push('origin', 'master')] *)
Definition git_push (dir : jsstring) : M unit :=
  call GitPush (js "master");;
  c ← the_dir GitPush dir;
  w ← get_world;
  put_world (with_remotes (<[origin c := head c]> (remotes w)) w).

(** [Array.prototype.sort(cmp)]: the stable sort by a comparator whose
    sign orders two elements. *)
Fixpoint sort_insert {A} (cmp : A → A → Z) (x : A) (l : list A) : list A :=
  match l with
  | [] => [x]
  | y :: l' =>
      if (cmp x y <=? 0)%Z then x :: y :: l' else y :: sort_insert cmp x l'
  end.

Definition array_sort {A} (cmp : A → A → Z) (l : list A) : list A :=
  foldr (sort_insert cmp) [] l.

(** ** Arguments and results (lines 6-35) *)

Module WikiConfig.
Record t : Type := { owner : jsstring; repo : jsstring; token : jsstring }.
End WikiConfig.

Module WriteWikiPageArgs.
Record t : Type := {
  owner : jsstring; repo : jsstring; token : jsstring;
  pageName : jsstring; content : jsstring;
  commitMessage : option jsstring
}.
End WriteWikiPageArgs.

Module AppendToWikiPageArgs.
Record t : Type := {
  owner : jsstring; repo : jsstring; token : jsstring;
  pageName : jsstring; content : jsstring;
  commitMessage : option jsstring
}.
End AppendToWikiPageArgs.

Module DeleteWikiPageArgs.
Record t : Type := {
  owner : jsstring; repo : jsstring; token : jsstring;
  pageName : jsstring;
  commitMessage : option jsstring
}.
End DeleteWikiPageArgs.

Module ListWikiPagesArgs.
Record t : Type := { owner : jsstring; repo : jsstring; token : jsstring }.
End ListWikiPagesArgs.

Module WikiPageInfo.
Record t : Type := { name : jsstring; path : jsstring; size : N }.
End WikiPageInfo.

(** The object returned by the write operation. *)
Module WriteResult.
Record t : Type := { success : bool; page : jsstring; url : jsstring }.
End WriteResult.

(** The object returned by the append and delete operations. *)
Module PageResult.
Record t : Type := { success : bool; page : jsstring }.
End PageResult.

(** The object returned by the read operation. *)
Module ReadResult.
Record t : Type := { success : bool; page : jsstring; content : jsstring }.
End ReadResult.

(** [commitMessage || fallback]: an absent or empty message is falsy. *)
Definition or_default (commitMessage : option jsstring) (fallback : jsstring)
  : jsstring :=
  match commitMessage with
  | Some m => if truthy m then m else fallback
  | None => fallback
  end.

(** ** The operations *)

(** [getWikiUrl], lines 52-54. *)
Definition getWikiUrl (owner repo token : jsstring) : jsstring :=
  js "https://" ++ token ++ js "@github.com/" ++ owner ++ js "/" ++ repo
  ++ js ".wiki.git".

(** [cloneWiki], lines 59-73.  The [git] handle of the returned pair is
    [simpleGit(tmpDir)], so the directory stands for both. *)
Definition cloneWiki (config : WikiConfig.t) : M jsstring :=
  e ← get_env;
  tmpDir ← fs_mkdtemp (path_string (path_join (os_tmpdir e) (js "wiki-")));
  let wikiUrl :=
    getWikiUrl (WikiConfig.owner config) (WikiConfig.repo config)
               (WikiConfig.token config) in
  try_catch
    (git_clone wikiUrl tmpDir;; ret tmpDir)
    (λ error,
       fs_rm tmpDir;;
       throw (CloneFailed (message error))).

(** [cleanup], lines 78-84. *)
Definition cleanup (tmpDir : jsstring) : M unit :=
  try_catch (fs_rm tmpDir) (λ error, emit (Warned tmpDir)).

(** The [finally] block of the five operations:
    [if (tmpDir) { await cleanup(tmpDir); }]. *)
Definition finally_cleanup : M unit :=
  tmpDir ← get_tmpDir;
  match tmpDir with
  | Some dir => if truthy dir then cleanup dir else ret ()
  | None => ret ()
  end.

(** [writeWikiPage], lines 89-118. *)
Definition writeWikiPage (args : WriteWikiPageArgs.t) : M WriteResult.t :=
  let owner := WriteWikiPageArgs.owner args in
  let repo := WriteWikiPageArgs.repo args in
  let token := WriteWikiPageArgs.token args in
  let fileName := normalizePageName (WriteWikiPageArgs.pageName args) in
  set_tmpDir None;;
  try_finally
    (dir ← cloneWiki (WikiConfig.Build_t owner repo token);
     set_tmpDir (Some dir);;
     let filePath := path_join dir fileName in
     fs_writeFile filePath (WriteWikiPageArgs.content args);;
     git_add dir fileName;;
     git_commit dir
       (or_default (WriteWikiPageArgs.commitMessage args)
                   (js "Update " ++ fileName));;
     git_push dir;;
     let wikiPageUrl :=
       js "https://github.com/" ++ owner ++ js "/" ++ repo ++ js "/wiki/"
       ++ replace_first md [] fileName in
     ret (WriteResult.Build_t true fileName wikiPageUrl))
    finally_cleanup.

(** [appendToWikiPage], lines 123-163; [[10; 10]] is the separator of
    two line feeds. *)
Definition appendToWikiPage (args : AppendToWikiPageArgs.t) : M PageResult.t :=
  let owner := AppendToWikiPageArgs.owner args in
  let repo := AppendToWikiPageArgs.repo args in
  let token := AppendToWikiPageArgs.token args in
  let content := AppendToWikiPageArgs.content args in
  let fileName := normalizePageName (AppendToWikiPageArgs.pageName args) in
  set_tmpDir None;;
  try_finally
    (dir ← cloneWiki (WikiConfig.Build_t owner repo token);
     set_tmpDir (Some dir);;
     let filePath := path_join dir fileName in
     existingContent ← try_catch (fs_readFile filePath) (λ error, ret []);
     let newContent :=
       if truthy existingContent
       then existingContent ++ [10; 10] ++ content
       else content in
     fs_writeFile filePath newContent;;
     git_add dir fileName;;
     git_commit dir
       (or_default (AppendToWikiPageArgs.commitMessage args)
                   (js "Append to " ++ fileName));;
     git_push dir;;
     ret (PageResult.Build_t true fileName))
    finally_cleanup.

(** The loop of [listWikiPages], lines 182-191. *)
Fixpoint stat_each (tmpDir : jsstring) (mdFiles : list jsstring)
    (pageInfos : list WikiPageInfo.t) : M (list WikiPageInfo.t) :=
  match mdFiles with
  | [] => ret pageInfos
  | file :: rest =>
      let filePath := path_join tmpDir file in
      size ← fs_stat_size filePath;
      stat_each tmpDir rest
        (pageInfos ++ [WikiPageInfo.Build_t (replace_first md [] file) file size])
  end.

(** [listWikiPages], lines 168-199.  [localeCompare] is the collation of
    the host ([String.prototype.localeCompare]). *)
Definition listWikiPages (localeCompare : jsstring → jsstring → Z)
    (args : ListWikiPagesArgs.t) : M (list WikiPageInfo.t) :=
  let owner := ListWikiPagesArgs.owner args in
  let repo := ListWikiPagesArgs.repo args in
  let token := ListWikiPagesArgs.token args in
  set_tmpDir None;;
  try_finally
    (dir ← cloneWiki (WikiConfig.Build_t owner repo token);
     set_tmpDir (Some dir);;
     files ← fs_readdir dir;
     let mdFiles := List.filter (λ f, endsWith f md) files in
     pageInfos ← stat_each dir mdFiles [];
     ret (array_sort
            (λ a b, localeCompare (WikiPageInfo.name a) (WikiPageInfo.name b))
            pageInfos))
    finally_cleanup.

(** [deleteWikiPage], lines 204-238. *)
Definition deleteWikiPage (args : DeleteWikiPageArgs.t) : M PageResult.t :=
  let owner := DeleteWikiPageArgs.owner args in
  let repo := DeleteWikiPageArgs.repo args in
  let token := DeleteWikiPageArgs.token args in
  let fileName := normalizePageName (DeleteWikiPageArgs.pageName args) in
  set_tmpDir None;;
  try_finally
    (dir ← cloneWiki (WikiConfig.Build_t owner repo token);
     set_tmpDir (Some dir);;
     let filePath := path_join dir fileName in
     try_catch (fs_access filePath) (λ error, throw (PageNotFound fileName));;
     fs_unlink filePath;;
     git_add dir fileName;;
     git_commit dir
       (or_default (DeleteWikiPageArgs.commitMessage args)
                   (js "Delete " ++ fileName));;
     git_push dir;;
     ret (PageResult.Build_t true fileName))
    finally_cleanup.

(** [readWikiPage], lines 243-274; the source types its argument as
    [WriteWikiPageArgs]. *)
Definition readWikiPage (args : WriteWikiPageArgs.t) : M ReadResult.t :=
  let owner := WriteWikiPageArgs.owner args in
  let repo := WriteWikiPageArgs.repo args in
  let token := WriteWikiPageArgs.token args in
  let fileName := normalizePageName (WriteWikiPageArgs.pageName args) in
  set_tmpDir None;;
  try_finally
    (dir ← cloneWiki (WikiConfig.Build_t owner repo token);
     set_tmpDir (Some dir);;
     let filePath := path_join dir fileName in
     try_catch (fs_access filePath) (λ error, throw (PageNotFound fileName));;
     content ← fs_readFile filePath;
     ret (ReadResult.Build_t true fileName content))
    finally_cleanup.

(** An operation called on a world: the local variable starts unset and
    is gone when the operation returns. *)
Definition run {A} (op : M A) (e : env) (w : world) : result A * world :=
  match op e {| the_world := w; var_tmpDir := None |} with
  | (r, s) => (r, the_world s)
  end.

(** ** Vocabulary of the statements *)

(** The state an operation starts in. *)
Definition initial (w : world) : state :=
  {| the_world := w; var_tmpDir := None |}.

Definition log_event (ev : event) (s : state) : state :=
  {| the_world := with_log (log (the_world s) ++ [ev]) (the_world s);
     var_tmpDir := var_tmpDir s |}.

Definition set_dir (dir : jsstring) (c : workcopy) (s : state) : state :=
  {| the_world := with_dirs (<[dir := c]> (dirs (the_world s))) (the_world s);
     var_tmpDir := var_tmpDir s |}.

Definition remove_dir (dir : jsstring) (s : state) : state :=
  {| the_world := with_dirs (delete dir (dirs (the_world s))) (the_world s);
     var_tmpDir := var_tmpDir s |}.

Definition set_remote (url : jsstring) (files : gmap jsstring bytes)
    (s : state) : state :=
  {| the_world := with_remotes (<[url := files]> (remotes (the_world s)))
                               (the_world s);
     var_tmpDir := var_tmpDir s |}.

(** The prefix handed to [mkdtemp] and the directory it creates. *)
Definition tmp_prefix (e : env) : jsstring :=
  path_string (path_join (os_tmpdir e) (js "wiki-")).

Definition tmp_dir (e : env) : jsstring := tmp_prefix e ++ mkdtemp_suffix e.

Definition config_url (config : WikiConfig.t) : jsstring :=
  getWikiUrl (WikiConfig.owner config) (WikiConfig.repo config)
             (WikiConfig.token config).

(** The working copy right after a clone of [files] from [url]. *)
Definition checkout (url : jsstring) (files : gmap jsstring bytes) : workcopy :=
  {| origin := url; tree := files; index := files; head := files |}.

(** The state in which [cloneWiki] returns the working copy. *)
Definition cloned (e : env) (url : jsstring) (files : gmap jsstring bytes)
    (s : state) : state :=
  set_dir (tmp_dir e) (checkout url files)
    (log_event (Called GitClone url)
       (set_dir (tmp_dir e) (checkout [] ∅)
          (log_event (Called Mkdtemp (tmp_prefix e)) s))).

(** The working copy is acquired: [mkdtemp] makes a new directory and
    the clone of the store at [url], which holds [files], succeeds. *)
Definition acquires (e : env) (w : world) (url : jsstring)
    (files : gmap jsstring bytes) : Prop :=
  fault e Mkdtemp (tmp_prefix e) = None
  ∧ dirs w !! tmp_dir e = None
  ∧ fault e GitClone url = None
  ∧ remotes w !! url = Some files.

(** No call but possibly the removal of a directory is rejected. *)
Definition no_fault_but_rm (e : env) : Prop :=
  ∀ p a, p ≠ Rm → fault e p a = None.

(** The same environment with the outcome of [fs.rm] replaced. *)
Definition with_rm_fault (f : jsstring → option jsstring) (e : env) : env :=
  {| os_tmpdir := os_tmpdir e;
     mkdtemp_suffix := mkdtemp_suffix e;
     fault := λ p a, match p with Rm => f a | _ => fault e p a end |}.

Definition is_rm_call (ev : event) : bool :=
  match ev with Called Rm _ => true | _ => false end.

(** A computation that leaves the local variable alone, never calls
    [fs.rm] and does not depend on what [fs.rm] would do. *)
Definition quiet {A} (m : M A) : Prop :=
  ∀ e s,
    var_tmpDir (m e s).2 = var_tmpDir s
    ∧ (∃ evs, log (the_world (m e s).2) = log (the_world s) ++ evs
              ∧ Forall (λ ev, is_rm_call ev = false) evs)
    ∧ ∀ f, m (with_rm_fault f e) s = m e s.

(** A computation all of whose errors satisfy [E]. *)
Definition throws_only {A} (E : error → Prop) (m : M A) : Prop :=
  ∀ e s err, (m e s).1 = Throw err → E err.

(** The state in which the [finally] block leaves the operation. *)
Definition released (e : env) (s : state) : state := (finally_cleanup e s).2.

(** The shape the five operations share: the local variable starts as
    [null], the [try] block clones, records the directory and goes on
    with [steps], and the [finally] block cleans up. *)
Definition scoped {A} (config : WikiConfig.t) (steps : jsstring → M A) : M A :=
  set_tmpDir None;;
  try_finally
    (dir ← cloneWiki config; set_tmpDir (Some dir);; steps dir)
    finally_cleanup.

(** The statements of each [try] block after the clone. *)
Definition write_steps (args : WriteWikiPageArgs.t) (dir : jsstring)
  : M WriteResult.t :=
  let owner := WriteWikiPageArgs.owner args in
  let repo := WriteWikiPageArgs.repo args in
  let fileName := normalizePageName (WriteWikiPageArgs.pageName args) in
  let filePath := path_join dir fileName in
  fs_writeFile filePath (WriteWikiPageArgs.content args);;
  git_add dir fileName;;
  git_commit dir
    (or_default (WriteWikiPageArgs.commitMessage args)
                (js "Update " ++ fileName));;
  git_push dir;;
  let wikiPageUrl :=
    js "https://github.com/" ++ owner ++ js "/" ++ repo ++ js "/wiki/"
    ++ replace_first md [] fileName in
  ret (WriteResult.Build_t true fileName wikiPageUrl).

Definition append_steps (args : AppendToWikiPageArgs.t) (dir : jsstring)
  : M PageResult.t :=
  let content := AppendToWikiPageArgs.content args in
  let fileName := normalizePageName (AppendToWikiPageArgs.pageName args) in
  let filePath := path_join dir fileName in
  existingContent ← try_catch (fs_readFile filePath) (λ error, ret []);
  let newContent :=
    if truthy existingContent
    then existingContent ++ [10; 10] ++ content
    else content in
  fs_writeFile filePath newContent;;
  git_add dir fileName;;
  git_commit dir
    (or_default (AppendToWikiPageArgs.commitMessage args)
                (js "Append to " ++ fileName));;
  git_push dir;;
  ret (PageResult.Build_t true fileName).

Definition list_steps (localeCompare : jsstring → jsstring → Z)
    (dir : jsstring) : M (list WikiPageInfo.t) :=
  files ← fs_readdir dir;
  let mdFiles := List.filter (λ f, endsWith f md) files in
  pageInfos ← stat_each dir mdFiles [];
  ret (array_sort
         (λ a b, localeCompare (WikiPageInfo.name a) (WikiPageInfo.name b))
         pageInfos).

Definition delete_steps (args : DeleteWikiPageArgs.t) (dir : jsstring)
  : M PageResult.t :=
  let fileName := normalizePageName (DeleteWikiPageArgs.pageName args) in
  let filePath := path_join dir fileName in
  try_catch (fs_access filePath) (λ error, throw (PageNotFound fileName));;
  fs_unlink filePath;;
  git_add dir fileName;;
  git_commit dir
    (or_default (DeleteWikiPageArgs.commitMessage args)
                (js "Delete " ++ fileName));;
  git_push dir;;
  ret (PageResult.Build_t true fileName).

Definition read_steps (args : WriteWikiPageArgs.t) (dir : jsstring)
  : M ReadResult.t :=
  let fileName := normalizePageName (WriteWikiPageArgs.pageName args) in
  let filePath := path_join dir fileName in
  try_catch (fs_access filePath) (λ error, throw (PageNotFound fileName));;
  content ← fs_readFile filePath;
  ret (ReadResult.Build_t true fileName content).

(** The state in which the steps after the clone start. *)
Definition holding (e : env) (url : jsstring) (files : gmap jsstring bytes)
    (w : world) : state :=
  {| the_world := the_world (cloned e url files (initial w));
     var_tmpDir := Some (tmp_dir e) |}.

(** Errors other than a rejected [fs.readFile] and a missing page. *)
Definition benign (err : error) : Prop :=
  match err with
  | External ReadFile _ => False
  | PageNotFound _ => False
  | _ => True
  end.

(** The removal of the temporary directory is attempted exactly once,
    as the last call of the operation, and what becomes of that removal
    changes neither the result nor the remote stores. *)
Definition removal_once {A} (op : M A) (e : env) (w : world) : Prop :=
  (∃ pre post,
      log (run op e w).2 = log w ++ pre ++ [Called Rm (tmp_dir e)] ++ post
      ∧ Forall (λ ev, is_rm_call ev = false) pre
      ∧ (post = [] ∨ post = [Warned (tmp_dir e)]))
  ∧ ∀ f, (run op (with_rm_fault f e) w).1 = (run op e w).1
         ∧ remotes (run op (with_rm_fault f e) w).2 = remotes (run op e w).2.

(** A call of one of the five exported operations. *)
Inductive invocation : Type :=
| Write (args : WriteWikiPageArgs.t)
| Read (args : WriteWikiPageArgs.t)
| Append (args : AppendToWikiPageArgs.t)
| List (localeCompare : jsstring → jsstring → Z) (args : ListWikiPagesArgs.t)
| Delete (args : DeleteWikiPageArgs.t).

(** The store an invocation works on. *)
Definition target (i : invocation) : WikiConfig.t :=
  match i with
  | Write a | Read a =>
      WikiConfig.Build_t (WriteWikiPageArgs.owner a) (WriteWikiPageArgs.repo a)
                         (WriteWikiPageArgs.token a)
  | Append a =>
      WikiConfig.Build_t (AppendToWikiPageArgs.owner a)
                         (AppendToWikiPageArgs.repo a)
                         (AppendToWikiPageArgs.token a)
  | List _ a =>
      WikiConfig.Build_t (ListWikiPagesArgs.owner a) (ListWikiPagesArgs.repo a)
                         (ListWikiPagesArgs.token a)
  | Delete a =>
      WikiConfig.Build_t (DeleteWikiPageArgs.owner a)
                         (DeleteWikiPageArgs.repo a)
                         (DeleteWikiPageArgs.token a)
  end.

Definition removal_once_of (i : invocation) (e : env) (w : world) : Prop :=
  match i with
  | Write a => removal_once (writeWikiPage a) e w
  | Read a => removal_once (readWikiPage a) e w
  | Append a => removal_once (appendToWikiPage a) e w
  | List cmp a => removal_once (listWikiPages cmp a) e w
  | Delete a => removal_once (deleteWikiPage a) e w
  end.

(** The error an invocation ends with, if any, and the world it
    leaves. *)
Definition thrown {A} (r : result A) : option error :=
  match r with
  | Throw err => Some err
  | Ok _ => None
  end.

Definition error_of (i : invocation) (e : env) (w : world) : option error :=
  match i with
  | Write a => thrown (run (writeWikiPage a) e w).1
  | Read a => thrown (run (readWikiPage a) e w).1
  | Append a => thrown (run (appendToWikiPage a) e w).1
  | List cmp a => thrown (run (listWikiPages cmp a) e w).1
  | Delete a => thrown (run (deleteWikiPage a) e w).1
  end.

Definition world_after (i : invocation) (e : env) (w : world) : world :=
  match i with
  | Write a => (run (writeWikiPage a) e w).2
  | Read a => (run (readWikiPage a) e w).2
  | Append a => (run (appendToWikiPage a) e w).2
  | List cmp a => (run (listWikiPages cmp a) e w).2
  | Delete a => (run (deleteWikiPage a) e w).2
  end.

(** A small world for the examples: one store with a home page, no
    temporary directory, and an environment in which nothing fails. *)
Definition demo_config : WikiConfig.t :=
  WikiConfig.Build_t (js "octo") (js "notes") (js "t0ken").

Definition demo_files : gmap jsstring bytes :=
  {[ js "Home.md" := utf8_encode (js "Welcome") ]}.

Definition demo_world : world :=
  {| remotes := {[ config_url demo_config := demo_files ]};
     dirs := ∅;
     log := [] |}.

Definition demo_env : env :=
  {| os_tmpdir := js "/tmp";
     mkdtemp_suffix := js "Ab3dE9";
     fault := λ _ _, None |}.

Definition demo_write (pageName content : string) : WriteWikiPageArgs.t :=
  WriteWikiPageArgs.Build_t (js "octo") (js "notes") (js "t0ken")
    (js pageName) (js content) None.

Definition demo_append (pageName content : string) : AppendToWikiPageArgs.t :=
  AppendToWikiPageArgs.Build_t (js "octo") (js "notes") (js "t0ken")
    (js pageName) (js content) None.

Definition demo_delete (pageName : string) : DeleteWikiPageArgs.t :=
  DeleteWikiPageArgs.Build_t (js "octo") (js "notes") (js "t0ken")
    (js pageName) None.

(** No call but possibly the removal of a directory or the reading of
    a file is rejected. *)
Definition no_fault_but_rm_and_read (e : env) : Prop :=
  ∀ p a, p ≠ Rm → p ≠ ReadFile → fault e p a = None.

(** What line 138 leaves in [existingContent]: the text of the file when
    the read succeeds, the empty string otherwise. *)
Definition existing_content (e : env) (p : filepath)
    (files : gmap jsstring bytes) : jsstring :=
  match fault e ReadFile (path_string p), files !! basename p with
  | None, Some b => utf8_decode b
  | _, _ => []
  end.

(** [newContent] of lines 144-146. *)
Definition appended (existingContent content : jsstring) : jsstring :=
  if truthy existingContent
  then existingContent ++ [10; 10] ++ content
  else content.

(** The same environment, except that the files cannot be read. *)
Definition unreadable (e : env) : env :=
  {| os_tmpdir := os_tmpdir e;
     mkdtemp_suffix := mkdtemp_suffix e;
     fault := λ p a, match p with
                     | ReadFile => Some (js "EACCES")
                     | _ => fault e p a
                     end |}.

(** The message with which the clone step fails, if it does: the call
    is rejected, or there is no store at the URL. *)
Definition clone_error (e : env) (w : world) (url : jsstring)
  : option jsstring :=
  match fault e GitClone url with
  | Some msg => Some msg
  | None =>
      match remotes w !! url with
      | Some _ => None
      | None => Some (js "repository not found")
      end
  end.

(** An environment in which the clone is refused and the temporary
    directory cannot be removed. *)
Definition busy_env : env :=
  {| os_tmpdir := js "/tmp";
     mkdtemp_suffix := js "Ab3dE9";
     fault := λ p _, match p with
                     | GitClone => Some (js "Authentication failed")
                     | Rm => Some (js "EBUSY")
                     | _ => None
                     end |}.

(** The record line 186 builds for a file of the working copy. *)
Definition page_info (files : gmap jsstring bytes) (file : jsstring)
  : WikiPageInfo.t :=
  WikiPageInfo.Build_t (replace_first md [] file) file
    (N.of_nat (length (default [] (files !! file)))).

(** The comparator of line 193. *)
Definition by_name (localeCompare : jsstring → jsstring → Z)
    (a b : WikiPageInfo.t) : Z :=
  localeCompare (WikiPageInfo.name a) (WikiPageInfo.name b).

(** The files of a store whose name ends with [.md], in the order of
    the directory listing. *)
Definition md_files (files : gmap jsstring bytes) : list jsstring :=
  List.filter (λ f, endsWith f md) (map_to_list files).*1.

(** A file name minus the extension. *)
Definition strip_extension (file : jsstring) : jsstring :=
  take (length file - length md) file.

(** A comparator orders any two elements one way or the other. *)
Definition total_cmp {A} (cmp : A → A → Z) : Prop :=
  ∀ a b, (cmp a b ≤ 0)%Z ∨ (cmp b a ≤ 0)%Z.

(** Comparison of two strings code unit by code unit, the collation of
    the examples. *)
Fixpoint code_unit_compare (a b : jsstring) : Z :=
  match a, b with
  | [], [] => 0%Z
  | [], _ :: _ => (-1)%Z
  | _ :: _, [] => 1%Z
  | x :: a', y :: b' =>
      if x <? y then (-1)%Z
      else if y <? x then 1%Z
      else code_unit_compare a' b'
  end.

(** A store with a page whose title has a dot: "a.mdb". *)
Definition dotted_world : world :=
  {| remotes := {[ config_url demo_config := {[ js "a.mdb.md" := js "hi" ]} ]};
     dirs := ∅;
     log := [] |}.

Definition demo_list : ListWikiPagesArgs.t :=
  ListWikiPagesArgs.Build_t (js "octo") (js "notes") (js "t0ken").

(** ** Vocabulary of the further properties *)

(** A computation that changes no remote store. *)
Definition keeps_remotes {A} (m : M A) : Prop :=
  ∀ e s, remotes (the_world (m e s).2) = remotes (the_world s).

(** A computation that changes no remote store unless it returns. *)
Definition all_or_nothing {A} (m : M A) : Prop :=
  ∀ e s, (∃ a, (m e s).1 = Ok a)
         ∨ remotes (the_world (m e s).2) = remotes (the_world s).

(** A computation that touches no directory but [dir]. *)
Definition confined (dir : jsstring) {A} (m : M A) : Prop :=
  ∀ e s d, d ≠ dir →
    dirs (the_world (m e s).2) !! d = dirs (the_world s) !! d.

(** An environment in which the clone is refused and nothing else. *)
Definition refusing_env : env :=
  {| os_tmpdir := js "/tmp";
     mkdtemp_suffix := js "Ab3dE9";
     fault := λ p _, match p with
                     | GitClone => Some (js "Authentication failed")
                     | _ => None
                     end |}.

(** An environment in which the push is rejected and nothing else. *)
Definition rejecting_env : env :=
  {| os_tmpdir := js "/tmp";
     mkdtemp_suffix := js "Ab3dE9";
     fault := λ p _, match p with
                     | GitPush => Some (js "non-fast-forward")
                     | _ => None
                     end |}.

(** An environment in which the existence check is rejected and nothing
    else. *)
Definition inaccessible_env : env :=
  {| os_tmpdir := js "/tmp";
     mkdtemp_suffix := js "Ab3dE9";
     fault := λ p _, match p with
                     | Access => Some (js "EACCES")
                     | _ => None
                     end |}.

(** An environment in which no temporary directory can be made. *)
Definition exhausted_env : env :=
  {| os_tmpdir := js "/tmp";
     mkdtemp_suffix := js "Ab3dE9";
     fault := λ p _, match p with
                     | Mkdtemp => Some (js "ENOSPC")
                     | _ => None
                     end |}.


(** ** The command line of [git add]

    [simple-git] hands the argument of [git.add] to [git add] as it is
    (lines 102, 150 and 225 pass the bare file name, not the path that
    [fs.writeFile] gets), and [git add] reads an argument that starts with
    a hyphen as an option.  None of its options ends with [.md] (the short
    ones take no value, so [.] is read as one more switch), so for a file
    name that starts with a hyphen the call is rejected. *)
Definition reads_as_option (fileName : jsstring) : bool :=
  startsWith fileName (js "-") && endsWith fileName md.

(** An environment in which [git add] does so. *)
Definition git_reads_options (e : env) : Prop :=
  ∀ fileName, reads_as_option fileName = true → fault e GitAdd fileName ≠ None.

(** An environment in which this is the only rejection. *)
Definition git_env : env :=
  {| os_tmpdir := js "/tmp";
     mkdtemp_suffix := js "Ab3dE9";
     fault := λ p a, match p with
                     | GitAdd =>
                         if reads_as_option a
                         then Some (js "error: unknown switch")
                         else None
                     | _ => None
                     end |}.

(** A computation that throws in every state. *)
Definition fails (e : env) {A} (m : M A) : Prop :=
  ∀ s, ∃ err, (m e s).1 = Throw err.

(** * Page names: the resolver *)

Section regex.
Variable cls : N → bool.

Lemma span_le s : (span cls s ≤ length s)%nat.
Proof. induction s as [|c r IH]; simpl; [lia|]. destruct (cls c); simpl; lia. Qed.

Lemma drop_span_cons c r :
  cls c = true → drop (span cls (c :: r)) (c :: r) = drop (span cls r) r.
Proof. intros H. simpl. by rewrite H. Qed.

(** The character-class replacement with the empty string is a
    filter. *)
Lemma replace_One_from fuel s :
  (length s ≤ fuel)%nat →
  replace_global_from fuel (One cls) [] s = List.filter (λ c, negb (cls c)) s.
Proof.
  revert s. induction fuel as [|fuel IH]; intros [|c r] Hlen; simpl in *;
    try reflexivity; try lia.
  destruct (cls c); simpl.
  - rewrite drop_0. apply IH. lia.
  - f_equal. apply IH. lia.
Qed.

Lemma match_here_pos p s n : match_here p s = Some n → (1 ≤ n)%nat.
Proof.
  destruct p as [c0|c0], s as [|c r]; simpl; try discriminate;
    destruct (c0 c); intros [= <-]; lia.
Qed.

(** Any fuel above the length of the input gives the same result. *)
Lemma replace_global_fuel p rep f1 f2 s :
  (length s ≤ f1)%nat → (length s ≤ f2)%nat →
  replace_global_from f1 p rep s = replace_global_from f2 p rep s.
Proof.
  revert f2 s. induction f1 as [|f1 IH]; intros f2 s H1 H2.
  - destruct s; simpl in *; [by destruct f2 | lia].
  - destruct s as [|c r]; [by destruct f2|].
    destruct f2 as [|f2]; [simpl in H2; lia|].
    cbn [replace_global_from]. simpl in H1, H2.
    destruct (match_here p (c :: r)) as [n|] eqn:Hm.
    + apply match_here_pos in Hm. f_equal.
      apply IH; rewrite length_drop; simpl; lia.
    + f_equal. apply IH; lia.
Qed.

(** The equations of the greedy-run replacement. *)
Lemma replace_Many_cons rep c r :
  replace_global (Many cls) rep (c :: r) =
  if cls c then rep ++ replace_global (Many cls) rep (drop (span cls r) r)
  else c :: replace_global (Many cls) rep r.
Proof.
  unfold replace_global. cbn [length replace_global_from match_here].
  destruct (cls c) eqn:Hc.
  - rewrite (drop_span_cons c r Hc). f_equal.
    apply replace_global_fuel; [|done]. rewrite length_drop. lia.
  - reflexivity.
Qed.
End regex.

Lemma replace_One cls s :
  replace_global (One cls) [] s = List.filter (λ c, negb (cls c)) s.
Proof. apply replace_One_from. reflexivity. Qed.

(** *** The runs of a title *)

Lemma runs_cons c r :
  ∃ g gs, runs (c :: r) = (is_space c, c :: g) :: gs
          ∧ match runs r with
            | (b, g') :: gs' =>
                if Bool.eqb b (is_space c) then g = g' ∧ gs = gs'
                else g = [] ∧ gs = (b, g') :: gs'
            | [] => g = [] ∧ gs = []
            end.
Proof.
  simpl. destruct (runs r) as [|[b g'] gs']; [by exists [], []|].
  destruct (Bool.eqb b (is_space c)) eqn:E.
  - apply Bool.eqb_prop in E. subst b. by exists g', gs'.
  - by exists [], ((b, g') :: gs').
Qed.

(** The runs concatenate to the title. *)
Lemma runs_concat s : concat (List.map snd (runs s)) = s.
Proof.
  induction s as [|c r IH]; [reflexivity|].
  destruct (runs_cons c r) as (g & gs & -> & H).
  destruct (runs r) as [|[b g'] gs']; simpl in *.
  - destruct H as [-> ->]. by rewrite <- IH.
  - destruct (Bool.eqb b (is_space c)); destruct H as [-> ->]; simpl;
      by rewrite <- IH.
Qed.

(** Each run is non-empty and of one kind. *)
Lemma runs_uniform s :
  Forall (λ bg, snd bg ≠ [] ∧ Forall (λ c, is_space c = fst bg) (snd bg)) (runs s).
Proof.
  induction s as [|c r IH]; [constructor|].
  simpl. destruct (runs r) as [|[b g'] gs'].
  - repeat constructor. done.
  - inversion IH as [|? ? [Hne Hall] Hrest]; subst; simpl in *.
    destruct (Bool.eqb b (is_space c)) eqn:E.
    + apply Bool.eqb_prop in E. constructor; [|done]. simpl. split; [done|].
      constructor; [done|done].
    + constructor; [|by constructor]. simpl. split; [done|]. by repeat constructor.
Qed.

(** No run can be extended: its neighbours are of the other kind. *)
Lemma runs_alternating s : alternating (runs s).
Proof.
  induction s as [|c r IH]; [done|].
  simpl. destruct (runs r) as [|[b g'] gs']; [done|].
  destruct (Bool.eqb b (is_space c)) eqn:E.
  - apply Bool.eqb_prop in E. subst b. exact IH.
  - split; [|exact IH]. intros <-. by rewrite Bool.eqb_reflx in E.
Qed.

Lemma runs_step c r :
  runs (c :: r) =
  match runs r with
  | (b, g) :: gs =>
      if Bool.eqb b (is_space c) then (b, c :: g) :: gs
      else (is_space c, [c]) :: (b, g) :: gs
  | [] => [(is_space c, [c])]
  end.
Proof. reflexivity. Qed.

Lemma spec_hyphenate_cons c r :
  spec_hyphenate (c :: r) =
  if is_space c then js "-" ++ spec_hyphenate (drop (span is_space r) r)
  else c :: spec_hyphenate r.
Proof.
  revert c. induction r as [|c' r' IH]; intros c.
  - unfold spec_hyphenate. simpl. by destruct (is_space c).
  - destruct (runs_cons c' r') as (g & gs & Hr & _).
    pose proof (IH c') as IH'.
    unfold spec_hyphenate in *. rewrite (runs_step c (c' :: r')).
    cbn [span]. rewrite Hr in *.
    destruct (is_space c) eqn:Hc, (is_space c') eqn:Hc';
      cbn [Bool.eqb drop]; try reflexivity.
    + exact IH'.
    + by rewrite Hr.
Qed.

(** Step (a) of the source is step (a) of the specification. *)
Lemma replace_space_runs s :
  replace_global (Many is_space) (js "-") s = spec_hyphenate s.
Proof.
  remember (length s) as n eqn:Hn. revert s Hn.
  induction n as [n IH] using lt_wf_ind. intros [|c r] Hn; [reflexivity|].
  rewrite replace_Many_cons, spec_hyphenate_cons. simpl in Hn.
  destruct (is_space c).
  - f_equal. apply (IH (length (drop (span is_space r) r))); [|done].
    rewrite length_drop. lia.
  - f_equal. apply (IH (length r)); [lia|done].
Qed.

Lemma endsWith_suffix s suf : endsWith s suf = bool_decide (suffix suf s).
Proof.
  unfold endsWith. apply bool_decide_ext. split.
  - intros H. exists (take (length s - length suf) s).
    rewrite <- H at 2. by rewrite take_drop.
  - intros [k ->]. rewrite length_app.
    replace (length k + length suf - length suf)%nat with (length k) by lia.
    by rewrite drop_app_length.
Qed.

Lemma filter_not_word s : List.filter (λ c, negb (not_word c)) s = List.filter is_word s.
Proof.
  apply List.filter_ext. intros c. unfold not_word. by rewrite Bool.negb_involutive.
Qed.

(** The part of the file name before the extension. *)
Lemma normalizePageName_unfold t :
  normalizePageName t =
  let normalized := List.filter is_word (spec_hyphenate t) in
  if bool_decide (suffix md normalized) then normalized else normalized ++ md.
Proof.
  unfold normalizePageName.
  by rewrite replace_space_runs, replace_One, filter_not_word, endsWith_suffix.
Qed.

(** C1.  For every title the resolver computes what the three steps of
    the specification compute: each maximal run of whitespace becomes one
    hyphen, every remaining character that is not an ASCII letter, a
    digit, a hyphen or an underscore is deleted, and [.md] is appended
    unless the result already ends with it.  The runs of step (a) are
    the maximal ones: they concatenate to the title, each is non-empty
    and of one kind, and neighbours are of different kinds.  The two
    titles of the specification normalize as it says. *)
Theorem normalizePageName_spec :
  (∀ t, normalizePageName t = spec_normalize t)
  ∧ (∀ t, concat (List.map snd (runs t)) = t
          ∧ Forall (λ bg, snd bg ≠ []
                          ∧ Forall (λ c, is_space c = fst bg) (snd bg)) (runs t)
          ∧ alternating (runs t))
  ∧ normalizePageName (js "Architettura del Sistema")
    = js "Architettura-del-Sistema.md"
  ∧ normalizePageName (js "API Documentation!!") = js "API-Documentation.md".
Proof.
  split; [|split; [|split; reflexivity]].
  - intros t. by rewrite normalizePageName_unfold.
  - intros t. split; [apply runs_concat|].
    split; [apply runs_uniform | apply runs_alternating].
Qed.

(** *** Character classes *)

Ltac bool_to_prop :=
  repeat match goal with
    | H : _ && _ = true |- _ => apply andb_true_iff in H; destruct H
    | H : _ || _ = true |- _ => apply orb_true_iff in H; destruct H
    | H : (_ <=? _) = true |- _ => apply N.leb_le in H
    | H : (_ <? _) = true |- _ => apply N.ltb_lt in H
    | H : (_ =? _) = true |- _ => apply N.eqb_eq in H
    | H : (_ <=? _) = false |- _ => apply N.leb_gt in H
    | H : (_ <? _) = false |- _ => apply N.ltb_ge in H
    | H : (_ =? _) = false |- _ => apply N.eqb_neq in H
    | H : negb _ = true |- _ => apply negb_true_iff in H
    end.

(** No whitespace character is a letter, a digit, a hyphen or an
    underscore. *)
Lemma word_not_space c : is_word c = true → is_space c = false.
Proof.
  intros Hw. apply not_true_iff_false. intros Hs.
  unfold is_word, is_space in *. bool_to_prop; lia.
Qed.

Lemma hyphenate_no_space s :
  Forall (λ c, is_space c = false) s → spec_hyphenate s = s.
Proof.
  induction 1 as [|c r Hc _ IH]; [reflexivity|].
  by rewrite spec_hyphenate_cons, Hc, IH.
Qed.

Lemma filter_all (P : N → bool) s :
  Forall (λ c, P c = true) s → List.filter P s = s.
Proof. induction 1 as [|c r Hc _ IH]; simpl; [done|]. by rewrite Hc, IH. Qed.

Lemma filter_none (P : N → bool) s :
  Forall (λ c, P c = false) s → List.filter P s = [].
Proof. induction 1 as [|c r Hc _ IH]; simpl; [done|]. by rewrite Hc. Qed.

Lemma filter_is_word s : Forall (λ c, is_word c = true) (List.filter is_word s).
Proof.
  apply List.Forall_forall. intros c Hc. by apply List.filter_In in Hc as [_ ?].
Qed.

(** A string of letters, digits, hyphens and underscores does not end
    with [.md]: it has no dot. *)
Lemma word_no_md s : Forall (λ c, is_word c = true) s → ¬ suffix md s.
Proof.
  intros Hall [k ->]. apply Forall_app in Hall as [_ Hmd].
  inversion Hmd as [|? ? Hdot _]. discriminate Hdot.
Qed.

(** The extension test of line 46 never succeeds: the file name is the
    filtered title followed by [.md]. *)
Lemma normalizePageName_stem t :
  normalizePageName t = List.filter is_word (spec_hyphenate t) ++ md.
Proof.
  rewrite normalizePageName_unfold. cbv zeta.
  rewrite bool_decide_eq_false_2; [done|]. apply word_no_md, filter_is_word.
Qed.

Lemma normalizePageName_of_file_name n :
  Forall (λ c, is_word c = true) n →
  normalizePageName (n ++ md) = n ++ js "md.md".
Proof.
  intros Hn. rewrite normalizePageName_stem.
  rewrite hyphenate_no_space.
  - rewrite List.filter_app, (filter_all _ _ Hn).
    by rewrite <- (assoc_L (++)).
  - apply Forall_app. split.
    + eapply Forall_impl; [exact Hn|]. apply word_not_space.
    + by repeat constructor.
Qed.

(** C2.  The resolver is not idempotent.  Normalizing the file name of
    the title "Home" gives "Homemd.md", not "Home.md"; for every title
    the second normalization deletes the dot of the extension and appends
    a second extension, so it never returns the file name it was given. *)
Theorem normalizePageName_twice :
  normalizePageName (js "Home") = js "Home.md"
  ∧ normalizePageName (normalizePageName (js "Home")) = js "Homemd.md"
  ∧ ∀ t, normalizePageName (normalizePageName t)
         = List.filter is_word (spec_hyphenate t) ++ js "md.md"
         ∧ normalizePageName (normalizePageName t) ≠ normalizePageName t.
Proof.
  split; [reflexivity|]. split; [reflexivity|]. intros t.
  rewrite (normalizePageName_stem t).
  rewrite normalizePageName_of_file_name by apply filter_is_word.
  split; [reflexivity|]. intros H. apply app_inv_head in H. discriminate H.
Qed.

(** *** Titles without an allowed character *)

Lemma runs_members (P : N → Prop) s :
  Forall P s → Forall (λ bg, Forall P (snd bg)) (runs s).
Proof.
  intros H. rewrite <- (runs_concat s) in H.
  apply Forall_concat in H. by rewrite List.Forall_map in H.
Qed.

Lemma strip_runs (l : list (bool * jsstring)) :
  Forall (λ bg, Forall (λ c, is_word c = false) (snd bg)) l →
  List.filter is_word (concat (List.map hyphen_or_run l))
  = replicate (length (List.filter fst l)) 45.
Proof.
  induction 1 as [|[b g] l Hg _ IH]; [reflexivity|].
  cbn [List.map concat]. rewrite List.filter_app, IH.
  destruct b; simpl in *; [reflexivity|]. by rewrite (filter_none _ _ Hg).
Qed.

Lemma space_runs_0 s :
  space_runs s = 0%nat ↔ Forall (λ c, is_space c = false) s.
Proof.
  unfold space_runs. split.
  - intros H. apply length_zero_iff_nil in H.
    rewrite <- (runs_concat s). apply Forall_concat. rewrite List.Forall_map.
    pose proof (runs_uniform s) as Hu.
    induction Hu as [|[b g] l [_ Hg] _ IH]; [constructor|].
    simpl in *. destruct b; [discriminate H|]. constructor; [exact Hg|by apply IH].
  - intros H. pose proof (runs_uniform s) as Hu.
    apply runs_members in H. f_equal.
    induction Hu as [|[b g] l [Hne Hg] _ IH]; [reflexivity|].
    inversion H as [|? ? Hb Hl]; subst. simpl in *.
    destruct b.
    + destruct g as [|c g]; [done|].
      inversion Hg as [|? ? Hs _]; inversion Hb as [|? ? Hns _]; congruence.
    + by apply IH.
Qed.

(** C9, as the code has it.  The resolver is a function on all strings.
    The empty title normalizes to [.md].  A title without any letter,
    digit, hyphen or underscore normalizes to one hyphen for each maximal
    run of whitespace, followed by [.md]; the result is [.md] alone
    exactly when the title has no whitespace. *)
Theorem normalizePageName_disallowed t :
  Forall (λ c, is_word c = false) t →
  normalizePageName [] = md
  ∧ normalizePageName t = replicate (space_runs t) 45 ++ md
  ∧ (normalizePageName t = md ↔ Forall (λ c, is_space c = false) t).
Proof.
  intros Ht. split; [reflexivity|].
  assert (E : normalizePageName t = replicate (space_runs t) 45 ++ md).
  { rewrite normalizePageName_stem. f_equal.
    unfold spec_hyphenate, space_runs. apply strip_runs. by apply runs_members. }
  split; [exact E|]. rewrite E, <- space_runs_0. split.
  - intros H. apply (f_equal length) in H.
    rewrite length_app, length_replicate in H. lia.
  - by intros ->.
Qed.

(** The title "!?", two disallowed characters and no whitespace. *)
Lemma normalizePageName_disallowed_witness :
  Forall (λ c, is_word c = false) (js "!?")
  ∧ normalizePageName (js "!?") = md.
Proof.
  assert (H : Forall (λ c, is_word c = false) (js "!?")) by (by repeat constructor).
  split; [exact H|].
  apply (normalizePageName_disallowed (js "!?") H). by repeat constructor.
Defined.

(** C9 as stated fails: the title " !" is made of whitespace and a
    disallowed character, and normalizes to "-.md". *)
Lemma normalizePageName_blank_counterexample :
  ¬ (∀ t, Forall (λ c, is_space c = true ∨ is_word c = false) t →
          normalizePageName t = md).
Proof.
  intros H. specialize (H (js " !")).
  assert (Hin : Forall (λ c, is_space c = true ∨ is_word c = false) (js " !")).
  { constructor; [by left|]. constructor; [by right|]. constructor. }
  specialize (H Hin). discriminate H.
Qed.


(** * The workflow *)

(** ** Running the monad *)

Lemma run_bind {A B} (m : M A) (k : A → M B) e s :
  (m ≫= k) e s =
  match m e s with
  | (Ok a, s') => k a e s'
  | (Throw err, s') => (Throw err, s')
  end.
Proof. reflexivity. Qed.

Lemma run_try_catch {A} (m : M A) h e s :
  try_catch m h e s =
  match m e s with
  | (Ok a, s') => (Ok a, s')
  | (Throw err, s') => h err e s'
  end.
Proof. reflexivity. Qed.

Lemma run_call p a e s :
  call p a e s =
  (match fault e p a with
   | Some msg => Throw (External p msg)
   | None => Ok ()
   end, log_event (Called p a) s).
Proof.
  cbv [call emit mbind M_bind bind get_world put_world get_env throw ret].
  by destruct (fault e p a).
Qed.

Ltac unfold_monad :=
  cbv [mbind M_bind bind ret throw try_catch try_finally
       set_tmpDir get_env get_world get_tmpDir put_world emit call
       the_dir put_dir].

Ltac unfold_prims :=
  cbv [fs_mkdtemp fs_rm fs_access fs_readFile fs_writeFile fs_unlink
       fs_readdir fs_stat_size git_clone git_add git_commit git_push];
  unfold_monad.

Ltac red_state :=
  cbn [the_world var_tmpDir remotes dirs log origin tree index head
       dirname basename with_remotes with_dirs with_log with_tree with_index
       with_head path_join fst snd log_event set_dir remove_dir set_remote initial
       checkout cloned holding fault os_tmpdir mkdtemp_suffix with_rm_fault].

(** ** Quiet computations *)

Lemma quiet_ret {A} (a : A) : quiet (ret a).
Proof.
  intros e s. split; [done|]. split; [|done].
  exists []. by rewrite app_nil_r.
Qed.

Lemma quiet_throw {A} err : quiet (@throw A err).
Proof.
  intros e s. split; [done|]. split; [|done].
  exists []. by rewrite app_nil_r.
Qed.

Lemma quiet_bind {A B} (m : M A) (k : A → M B) :
  quiet m → (∀ a, quiet (k a)) → quiet (m ≫= k).
Proof.
  intros Hm Hk e s. destruct (Hm e s) as (Hv & (evs & Hl & Hevs) & Hf).
  assert (Heq : ∀ f, (m ≫= k) (with_rm_fault f e) s
                     = match m e s with
                       | (Ok a, s') => k a (with_rm_fault f e) s'
                       | (Throw err, s') => (Throw err, s')
                       end).
  { intros f. by rewrite run_bind, Hf. }
  rewrite run_bind. destruct (m e s) as [[a|err] s1]; simpl in *.
  - destruct (Hk a e s1) as (Hv' & (evs' & Hl' & Hevs') & Hf').
    split; [congruence|]. split.
    + exists (evs ++ evs'). split; [|by apply Forall_app].
      by rewrite Hl', Hl, (assoc_L (++)).
    + intros f. by rewrite Heq, Hf'.
  - split; [done|]. split; [by exists evs|]. intros f. by rewrite Heq.
Qed.

Lemma quiet_try_catch {A} (m : M A) h :
  quiet m → (∀ err, quiet (h err)) → quiet (try_catch m h).
Proof.
  intros Hm Hh e s. destruct (Hm e s) as (Hv & (evs & Hl & Hevs) & Hf).
  assert (Heq : ∀ f, try_catch m h (with_rm_fault f e) s
                     = match m e s with
                       | (Ok a, s') => (Ok a, s')
                       | (Throw err, s') => h err (with_rm_fault f e) s'
                       end).
  { intros f. by rewrite run_try_catch, Hf. }
  rewrite run_try_catch. destruct (m e s) as [[a|err] s1]; simpl in *.
  - split; [done|]. split; [by exists evs|]. intros f. by rewrite Heq.
  - destruct (Hh err e s1) as (Hv' & (evs' & Hl' & Hevs') & Hf').
    split; [congruence|]. split.
    + exists (evs ++ evs'). split; [|by apply Forall_app].
      by rewrite Hl', Hl, (assoc_L (++)).
    + intros f. by rewrite Heq, Hf'.
Qed.

Ltac quiet_prim :=
  let e := fresh "e" in let s := fresh "s" in
  intros e s; unfold_prims; red_state;
  repeat case_match; simplify_eq/=;
  (split; [reflexivity|]); (split; [|reflexivity]);
  eexists; (split; [reflexivity|]); by repeat constructor.

Lemma quiet_access p : quiet (fs_access p).
Proof. quiet_prim. Qed.

Lemma quiet_readFile p : quiet (fs_readFile p).
Proof. quiet_prim. Qed.

Lemma quiet_writeFile p data : quiet (fs_writeFile p data).
Proof. quiet_prim. Qed.

Lemma quiet_unlink p : quiet (fs_unlink p).
Proof. quiet_prim. Qed.

Lemma quiet_readdir dir : quiet (fs_readdir dir).
Proof. quiet_prim. Qed.

Lemma quiet_stat_size p : quiet (fs_stat_size p).
Proof. quiet_prim. Qed.

Lemma quiet_add dir f : quiet (git_add dir f).
Proof. quiet_prim. Qed.

Lemma quiet_commit dir msg : quiet (git_commit dir msg).
Proof. quiet_prim. Qed.

Lemma quiet_push dir : quiet (git_push dir).
Proof. quiet_prim. Qed.

Lemma quiet_stat_each dir mdFiles pageInfos :
  quiet (stat_each dir mdFiles pageInfos).
Proof.
  revert pageInfos. induction mdFiles as [|file rest IH]; intros pageInfos.
  - apply quiet_ret.
  - apply quiet_bind; [apply quiet_stat_size | intros size; apply IH].
Qed.

Create HintDb quiet discriminated.
#[local] Hint Resolve quiet_ret quiet_throw quiet_access quiet_readFile
  quiet_writeFile quiet_unlink quiet_readdir quiet_stat_size quiet_add
  quiet_commit quiet_push quiet_stat_each : quiet.

Ltac quiet_steps :=
  cbv zeta;
  repeat first
    [ solve [auto with quiet]
    | apply quiet_try_catch; [|intros ?]
    | apply quiet_bind; [|intros ?] ].

Lemma quiet_write_steps args dir : quiet (write_steps args dir).
Proof. unfold write_steps. quiet_steps. Qed.

Lemma quiet_append_steps args dir : quiet (append_steps args dir).
Proof. unfold append_steps. quiet_steps. Qed.

Lemma quiet_list_steps cmp dir : quiet (list_steps cmp dir).
Proof. unfold list_steps. quiet_steps. Qed.

Lemma quiet_delete_steps args dir : quiet (delete_steps args dir).
Proof. unfold delete_steps. quiet_steps. Qed.

Lemma quiet_read_steps args dir : quiet (read_steps args dir).
Proof. unfold read_steps. quiet_steps. Qed.

(** ** Acquisition and release *)

Lemma truthy_tmp_dir e : truthy (tmp_dir e) = true.
Proof.
  unfold tmp_dir, tmp_prefix, path_string, path_join. simpl.
  by destruct (os_tmpdir e).
Qed.

Lemma finally_cleanup_ok e s : (finally_cleanup e s).1 = Ok ().
Proof.
  unfold finally_cleanup, cleanup. unfold_prims.
  destruct (var_tmpDir s) as [dir|]; [|done].
  destruct (truthy dir); [|done]. red_state.
  by destruct (fault e Rm dir).
Qed.

Lemma released_none e s : var_tmpDir s = None → released e s = s.
Proof.
  intros H. unfold released, finally_cleanup. unfold_monad. by rewrite H.
Qed.

Lemma released_some e s dir :
  var_tmpDir s = Some dir → truthy dir = true →
  released e s =
  match fault e Rm dir with
  | Some _ => log_event (Warned dir) (log_event (Called Rm dir) s)
  | None => remove_dir dir (log_event (Called Rm dir) s)
  end.
Proof.
  intros Hv Ht. unfold released, finally_cleanup, cleanup. unfold_prims.
  rewrite Hv, Ht. red_state. by destruct (fault e Rm dir).
Qed.

Lemma run_try_finally {A} (m : M A) e s :
  try_finally m finally_cleanup e s = ((m e s).1, released e (m e s).2).
Proof.
  unfold try_finally, released. destruct (m e s) as [r s']. simpl.
  pose proof (finally_cleanup_ok e s') as H.
  destruct (finally_cleanup e s') as [[[]|err] s'']; simpl in *; [done|discriminate].
Qed.

Lemma cloneWiki_acquires config e s files :
  acquires e (the_world s) (config_url config) files →
  cloneWiki config e s = (Ok (tmp_dir e), cloned e (config_url config) files s).
Proof.
  intros (Hmk & Hfresh & Hcl & Hrem).
  unfold cloneWiki. unfold_prims. fold (tmp_prefix e). fold (config_url config).
  red_state. rewrite Hmk. red_state. fold (tmp_dir e). rewrite Hfresh. red_state.
  rewrite Hcl. red_state. rewrite Hrem. reflexivity.
Qed.

Lemma run_scoped {A} config (steps : jsstring → M A) e w files :
  acquires e w (config_url config) files →
  run (scoped config steps) e w =
  ((steps (tmp_dir e) e (holding e (config_url config) files w)).1,
   the_world
     (released e (steps (tmp_dir e) e (holding e (config_url config) files w)).2)).
Proof.
  intros Hacq. unfold run, scoped.
  rewrite run_bind. cbn [set_tmpDir the_world var_tmpDir].
  rewrite run_try_finally, run_bind.
  rewrite (cloneWiki_acquires config e _ files) by exact Hacq.
  rewrite run_bind. reflexivity.
Qed.

Lemma acquires_with_rm_fault f e w url files :
  acquires e w url files → acquires (with_rm_fault f e) w url files.
Proof. intros H. exact H. Qed.

(** The scoped shape gives the removal property to any quiet steps. *)
Lemma scoped_removal_once {A} config (steps : jsstring → M A) e w files :
  (∀ dir, quiet (steps dir)) →
  acquires e w (config_url config) files →
  removal_once (scoped config steps) e w.
Proof.
  intros Hq Hacq. split.
  - rewrite (run_scoped _ _ _ _ files Hacq). cbn [snd].
    destruct (Hq (tmp_dir e) e (holding e (config_url config) files w))
      as (Hv & (evs & Hl & Hevs) & _).
    rewrite (released_some _ _ (tmp_dir e)) by (done || apply truthy_tmp_dir).
    exists ([Called Mkdtemp (tmp_prefix e); Called GitClone (config_url config)]
            ++ evs).
    destruct (fault e Rm (tmp_dir e)).
    + exists [Warned (tmp_dir e)]. red_state. rewrite Hl. red_state.
      split; [by rewrite <- !(assoc_L (++))|].
      split; [|by right]. by repeat constructor.
    + exists []. red_state. rewrite Hl. red_state.
      split; [by rewrite <- !(assoc_L (++))|].
      split; [|by left]. by repeat constructor.
  - intros f.
    rewrite (run_scoped _ _ (with_rm_fault f e) _ files
               (acquires_with_rm_fault f e w _ files Hacq)).
    rewrite (run_scoped _ _ e _ files Hacq).
    change (tmp_dir (with_rm_fault f e)) with (tmp_dir e).
    change (holding (with_rm_fault f e) (config_url config) files w)
      with (holding e (config_url config) files w).
    destruct (Hq (tmp_dir e) e (holding e (config_url config) files w))
      as (Hv & _ & Hf).
    rewrite Hf. split; [reflexivity|]. cbn [snd].
    rewrite !(released_some _ _ (tmp_dir e)) by (done || apply truthy_tmp_dir).
    cbn [fault with_rm_fault].
    by destruct (f (tmp_dir e)), (fault e Rm (tmp_dir e)).
Qed.

Lemma writeWikiPage_scoped args :
  writeWikiPage args = scoped (target (Write args)) (write_steps args).
Proof. reflexivity. Qed.

Lemma readWikiPage_scoped args :
  readWikiPage args = scoped (target (Read args)) (read_steps args).
Proof. reflexivity. Qed.

Lemma appendToWikiPage_scoped args :
  appendToWikiPage args = scoped (target (Append args)) (append_steps args).
Proof. reflexivity. Qed.

Lemma listWikiPages_scoped cmp args :
  listWikiPages cmp args = scoped (target (List cmp args)) (list_steps cmp).
Proof. reflexivity. Qed.

Lemma deleteWikiPage_scoped args :
  deleteWikiPage args = scoped (target (Delete args)) (delete_steps args).
Proof. reflexivity. Qed.

Lemma demo_acquires :
  acquires demo_env demo_world (config_url demo_config) demo_files.
Proof. repeat split. Qed.

(** C4.  For each of the five operations and every run in which the
    working copy is acquired, whatever happens afterwards (any rejected
    file operation, stage, commit or push), the log of the run holds
    exactly one call of [fs.rm], on the temporary directory, as its last
    call; and the result of the operation and the remote stores are the
    same whether that removal succeeds or fails. *)
Theorem cleanup_exactly_once (i : invocation) e w files :
  acquires e w (config_url (target i)) files →
  removal_once_of i e w.
Proof.
  intros Hacq. destruct i as [a|a|a|cmp a|a]; simpl.
  - rewrite writeWikiPage_scoped.
    eapply scoped_removal_once; [apply quiet_write_steps | exact Hacq].
  - rewrite readWikiPage_scoped.
    eapply scoped_removal_once; [apply quiet_read_steps | exact Hacq].
  - rewrite appendToWikiPage_scoped.
    eapply scoped_removal_once; [apply quiet_append_steps | exact Hacq].
  - rewrite listWikiPages_scoped.
    eapply scoped_removal_once; [apply quiet_list_steps | exact Hacq].
  - rewrite deleteWikiPage_scoped.
    eapply scoped_removal_once; [apply quiet_delete_steps | exact Hacq].
Qed.

(** Deleting a page that does not exist: the access check fails after
    the clone, and the directory is still removed once. *)
Lemma cleanup_exactly_once_witness :
  acquires demo_env demo_world (config_url demo_config) demo_files
  ∧ removal_once (deleteWikiPage (demo_delete "Missing")) demo_env demo_world.
Proof.
  split; [exact demo_acquires|].
  exact (cleanup_exactly_once (Delete (demo_delete "Missing")) demo_env
           demo_world demo_files demo_acquires).
Defined.

(** ** What each primitive does in a working copy *)

Ltac prim_run H :=
  unfold_prims; red_state;
  repeat (first [rewrite H | case_match]; red_state);
  simplify_eq/=; try reflexivity.

Section primitives.
Variables (e : env) (s : state) (c : workcopy).

Lemma fs_access_run p :
  dirs (the_world s) !! dirname p = Some c →
  fs_access p e s =
  (match fault e Access (path_string p) with
   | Some msg => Throw (External Access msg)
   | None => match tree c !! basename p with
             | Some _ => Ok ()
             | None => Throw (External Access (js "ENOENT"))
             end
   end, log_event (Called Access (path_string p)) s).
Proof. intros H. prim_run H. Qed.

Lemma fs_readFile_run p :
  dirs (the_world s) !! dirname p = Some c →
  fs_readFile p e s =
  (match fault e ReadFile (path_string p) with
   | Some msg => Throw (External ReadFile msg)
   | None => match tree c !! basename p with
             | Some b => Ok (utf8_decode b)
             | None => Throw (External ReadFile (js "ENOENT"))
             end
   end, log_event (Called ReadFile (path_string p)) s).
Proof. intros H. prim_run H. Qed.

Lemma fs_stat_size_run p :
  dirs (the_world s) !! dirname p = Some c →
  fs_stat_size p e s =
  (match fault e Stat (path_string p) with
   | Some msg => Throw (External Stat msg)
   | None => match tree c !! basename p with
             | Some b => Ok (N.of_nat (length b))
             | None => Throw (External Stat (js "ENOENT"))
             end
   end, log_event (Called Stat (path_string p)) s).
Proof. intros H. prim_run H. Qed.

Lemma fs_readdir_run dir :
  dirs (the_world s) !! dir = Some c →
  fs_readdir dir e s =
  (match fault e Readdir dir with
   | Some msg => Throw (External Readdir msg)
   | None => Ok (js ".git" :: (map_to_list (tree c)).*1)
   end, log_event (Called Readdir dir) s).
Proof. intros H. prim_run H. Qed.

Lemma fs_writeFile_run p data :
  dirs (the_world s) !! dirname p = Some c →
  fs_writeFile p data e s =
  match fault e WriteFile (path_string p) with
  | Some msg =>
      (Throw (External WriteFile msg), log_event (Called WriteFile (path_string p)) s)
  | None =>
      (Ok (),
       set_dir (dirname p)
         (with_tree (<[basename p := utf8_encode data]> (tree c)) c)
         (log_event (Called WriteFile (path_string p)) s))
  end.
Proof. intros H. prim_run H. Qed.

Lemma fs_unlink_run p :
  dirs (the_world s) !! dirname p = Some c →
  fs_unlink p e s =
  match fault e Unlink (path_string p), tree c !! basename p with
  | Some msg, _ =>
      (Throw (External Unlink msg), log_event (Called Unlink (path_string p)) s)
  | None, None =>
      (Throw (External Unlink (js "ENOENT")),
       log_event (Called Unlink (path_string p)) s)
  | None, Some _ =>
      (Ok (),
       set_dir (dirname p) (with_tree (delete (basename p) (tree c)) c)
         (log_event (Called Unlink (path_string p)) s))
  end.
Proof. intros H. prim_run H. Qed.

Lemma git_add_run dir f :
  dirs (the_world s) !! dir = Some c →
  git_add dir f e s =
  match fault e GitAdd f with
  | Some msg => (Throw (External GitAdd msg), log_event (Called GitAdd f) s)
  | None =>
      match tree c !! f, index c !! f with
      | Some b, _ =>
          (Ok (), set_dir dir (with_index (<[f := b]> (index c)) c)
                    (log_event (Called GitAdd f) s))
      | None, Some _ =>
          (Ok (), set_dir dir (with_index (delete f (index c)) c)
                    (log_event (Called GitAdd f) s))
      | None, None =>
          (Throw (External GitAdd (js "pathspec did not match any files")),
           log_event (Called GitAdd f) s)
      end
  end.
Proof. intros H. prim_run H. Qed.

Lemma git_commit_run dir msg :
  dirs (the_world s) !! dir = Some c →
  git_commit dir msg e s =
  match fault e GitCommit msg with
  | Some err => (Throw (External GitCommit err), log_event (Called GitCommit msg) s)
  | None =>
      (Ok (), set_dir dir (with_head (index c) c)
                (log_event (Called GitCommit msg) s))
  end.
Proof. intros H. prim_run H. Qed.

Lemma git_push_run dir :
  dirs (the_world s) !! dir = Some c →
  git_push dir e s =
  match fault e GitPush (js "master") with
  | Some err =>
      (Throw (External GitPush err), log_event (Called GitPush (js "master")) s)
  | None =>
      (Ok (), set_remote (origin c) (head c)
                (log_event (Called GitPush (js "master")) s))
  end.
Proof. intros H. prim_run H. Qed.

End primitives.

(** ** Which errors a computation can throw *)

Lemma throws_only_ret {A} E (a : A) : throws_only E (ret a).
Proof. intros e s err H. discriminate H. Qed.

Lemma throws_only_throw {A} (E : error → Prop) err :
  E err → throws_only E (@throw A err).
Proof. intros HE e s err' [= <-]. exact HE. Qed.

Lemma throws_only_bind {A B} E (m : M A) (k : A → M B) :
  throws_only E m → (∀ a, throws_only E (k a)) → throws_only E (m ≫= k).
Proof.
  intros Hm Hk e s err. rewrite run_bind. specialize (Hm e s).
  destruct (m e s) as [[a|err'] s']; simpl in *.
  - apply Hk.
  - intros [= <-]. by apply Hm.
Qed.

(** What the [try] block throws is caught: only the handler counts. *)
Lemma throws_only_try_catch {A} E (m : M A) h :
  (∀ err, throws_only E (h err)) → throws_only E (try_catch m h).
Proof.
  intros Hh e s err. rewrite run_try_catch.
  destruct (m e s) as [[a|err'] s']; simpl; [discriminate|]. apply Hh.
Qed.

Lemma throws_only_scoped {A} E config (steps : jsstring → M A) :
  throws_only E (cloneWiki config) →
  (∀ dir, throws_only E (steps dir)) →
  throws_only E (scoped config steps).
Proof.
  intros Hc Hs e s err. unfold scoped. rewrite run_bind.
  cbn [set_tmpDir]. rewrite run_try_finally. cbn [fst].
  apply throws_only_bind; [exact Hc|]. intros dir.
  apply throws_only_bind; [|intros _; apply Hs].
  intros e' s' err' H. discriminate H.
Qed.

Ltac benign_prim :=
  let e := fresh "e" in let s := fresh "s" in let err := fresh "err" in
  intros e s err; unfold_prims; red_state;
  repeat case_match; simplify_eq/=; intros [= <-]; exact I.

Lemma benign_writeFile p data : throws_only benign (fs_writeFile p data).
Proof. benign_prim. Qed.

Lemma benign_add dir f : throws_only benign (git_add dir f).
Proof. benign_prim. Qed.

Lemma benign_commit dir msg : throws_only benign (git_commit dir msg).
Proof. benign_prim. Qed.

Lemma benign_push dir : throws_only benign (git_push dir).
Proof. benign_prim. Qed.

Lemma benign_cloneWiki config : throws_only benign (cloneWiki config).
Proof. unfold cloneWiki. benign_prim. Qed.

Create HintDb benign discriminated.
#[local] Hint Resolve throws_only_ret benign_writeFile benign_add
  benign_commit benign_push : benign.

Ltac benign_steps :=
  cbv zeta;
  repeat first
    [ solve [auto with benign]
    | apply throws_only_try_catch; intros ?
    | apply throws_only_bind; [|intros ?] ].

Lemma benign_write args : throws_only benign (writeWikiPage args).
Proof.
  rewrite writeWikiPage_scoped.
  apply throws_only_scoped; [apply benign_cloneWiki|].
  intros dir. unfold write_steps. benign_steps.
Qed.

Lemma benign_append args : throws_only benign (appendToWikiPage args).
Proof.
  rewrite appendToWikiPage_scoped.
  apply throws_only_scoped; [apply benign_cloneWiki|].
  intros dir. unfold append_steps. benign_steps.
Qed.

Lemma run_throws_only {A} E (op : M A) e w err :
  throws_only E op → (run op e w).1 = Throw err → E err.
Proof.
  intros H. unfold run. specialize (H e (initial w) err).
  unfold initial in H. by destruct (op e _) as [r s].
Qed.

(** ** Runs without rejected calls *)

Lemma remotes_released e s :
  remotes (the_world (released e s)) = remotes (the_world s).
Proof.
  unfold released, finally_cleanup, cleanup. unfold_prims.
  destruct (var_tmpDir s) as [dir|]; [|done].
  destruct (truthy dir); [|done]. red_state.
  by destruct (fault e Rm dir).
Qed.

Lemma log_released e s :
  ∃ evs, log (the_world (released e s)) = log (the_world s) ++ evs.
Proof.
  unfold released, finally_cleanup, cleanup. unfold_prims.
  destruct (var_tmpDir s) as [dir|]; [|by exists []; rewrite app_nil_r].
  destruct (truthy dir); [|by exists []; rewrite app_nil_r]. red_state.
  destruct (fault e Rm dir); red_state; rewrite <- ?(assoc_L (++)); by eexists.
Qed.

Ltac side := red_state; rewrite ?lookup_insert_eq; done.

Ltac run_prim lem Hnf :=
  rewrite run_bind; erewrite lem by side; rewrite ?Hnf by done; red_state;
  rewrite ?lookup_insert_eq.

Lemma write_steps_ok args e url files w :
  no_fault_but_rm e →
  let fileName := normalizePageName (WriteWikiPageArgs.pageName args) in
  ∃ s',
    write_steps args (tmp_dir e) e (holding e url files w)
    = (Ok (WriteResult.Build_t true fileName
             (js "https://github.com/" ++ WriteWikiPageArgs.owner args
              ++ js "/" ++ WriteWikiPageArgs.repo args ++ js "/wiki/"
              ++ replace_first md [] fileName)), s')
    ∧ remotes (the_world s')
      = <[url := <[fileName := utf8_encode (WriteWikiPageArgs.content args)]> files]>
          (remotes w).
Proof.
  intros Hnf fileName. unfold write_steps. cbv zeta. fold fileName.
  run_prim fs_writeFile_run Hnf.
  run_prim git_add_run Hnf.
  run_prim git_commit_run Hnf.
  run_prim git_push_run Hnf.
  eexists. split; [reflexivity|]. red_state. reflexivity.
Qed.

Lemma no_fault_weaken e : no_fault_but_rm e → no_fault_but_rm_and_read e.
Proof. intros H p a Hp _. by apply H. Qed.

(** Lines 136-141: whatever makes the read fail, the content is taken
    as empty and nothing is thrown. *)
Lemma read_or_empty e s url files dir f :
  dirs (the_world s) !! dir = Some (checkout url files) →
  try_catch (fs_readFile (path_join dir f)) (λ _, ret []) e s
  = (Ok (existing_content e (path_join dir f) files),
     log_event (Called ReadFile (path_string (path_join dir f))) s).
Proof.
  intros Hd. rewrite run_try_catch. erewrite fs_readFile_run by exact Hd.
  unfold existing_content. red_state.
  destruct (fault e ReadFile _); [reflexivity|]. by destruct (files !! f).
Qed.

Lemma append_steps_ok args e url files w :
  no_fault_but_rm_and_read e →
  let fileName := normalizePageName (AppendToWikiPageArgs.pageName args) in
  let newContent :=
    appended (existing_content e (path_join (tmp_dir e) fileName) files)
             (AppendToWikiPageArgs.content args) in
  ∃ s',
    append_steps args (tmp_dir e) e (holding e url files w)
    = (Ok (PageResult.Build_t true fileName), s')
    ∧ remotes (the_world s')
      = <[url := <[fileName := utf8_encode newContent]> files]> (remotes w).
Proof.
  intros Hnf fileName newContent. unfold append_steps. cbv zeta. fold fileName.
  rewrite run_bind. erewrite read_or_empty by side.
  fold (appended (existing_content e (path_join (tmp_dir e) fileName) files)
                 (AppendToWikiPageArgs.content args)).
  fold newContent.
  run_prim fs_writeFile_run Hnf.
  run_prim git_add_run Hnf.
  run_prim git_commit_run Hnf.
  run_prim git_push_run Hnf.
  eexists. split; [reflexivity|]. red_state. reflexivity.
Qed.

(** Lines 217-221 and 256-260 on a missing file. *)
Lemma access_or_not_found e s c dir f :
  dirs (the_world s) !! dir = Some c → tree c !! f = None →
  try_catch (fs_access (path_join dir f)) (λ _, throw (PageNotFound f)) e s
  = (Throw (PageNotFound f),
     log_event (Called Access (path_string (path_join dir f))) s).
Proof.
  intros Hd Hf. rewrite run_try_catch. erewrite fs_access_run by exact Hd.
  red_state. rewrite Hf. by destruct (fault e Access _).
Qed.

Lemma read_steps_missing args e url files w :
  files !! normalizePageName (WriteWikiPageArgs.pageName args) = None →
  (read_steps args (tmp_dir e) e (holding e url files w)).1
  = Throw (PageNotFound (normalizePageName (WriteWikiPageArgs.pageName args))).
Proof.
  intros Hf. unfold read_steps. cbv zeta.
  rewrite run_bind. erewrite access_or_not_found; [reflexivity|side|exact Hf].
Qed.

Lemma delete_steps_missing args e url files w :
  files !! normalizePageName (DeleteWikiPageArgs.pageName args) = None →
  (delete_steps args (tmp_dir e) e (holding e url files w)).1
  = Throw (PageNotFound (normalizePageName (DeleteWikiPageArgs.pageName args))).
Proof.
  intros Hf. unfold delete_steps. cbv zeta.
  rewrite run_bind. erewrite access_or_not_found; [reflexivity|side|exact Hf].
Qed.

Lemma read_steps_ok args e url files w b :
  no_fault_but_rm e →
  files !! normalizePageName (WriteWikiPageArgs.pageName args) = Some b →
  (read_steps args (tmp_dir e) e (holding e url files w)).1
  = Ok (ReadResult.Build_t true
          (normalizePageName (WriteWikiPageArgs.pageName args))
          (utf8_decode b)).
Proof.
  intros Hnf Hf. unfold read_steps. cbv zeta.
  rewrite run_bind, run_try_catch. erewrite fs_access_run by side.
  rewrite Hnf by done. red_state. rewrite Hf.
  rewrite run_bind. erewrite fs_readFile_run by side.
  rewrite Hnf by done. red_state. rewrite Hf. reflexivity.
Qed.

(** The result and the remote stores of a scoped operation are those of
    its steps. *)
Lemma run_scoped_result {A} config (steps : jsstring → M A) e w files :
  acquires e w (config_url config) files →
  (run (scoped config steps) e w).1
  = (steps (tmp_dir e) e (holding e (config_url config) files w)).1
  ∧ remotes (run (scoped config steps) e w).2
    = remotes (the_world
                 (steps (tmp_dir e) e (holding e (config_url config) files w)).2).
Proof.
  intros Hacq. rewrite (run_scoped _ _ _ _ files Hacq). cbn [fst snd].
  by rewrite remotes_released.
Qed.

(** ** Text of a file *)

Lemma utf16_units_truthy cp r : truthy (utf16_units cp ++ r) = true.
Proof. unfold utf16_units. by destruct (cp <? 0x10000). Qed.

(** A file that has bytes has text: every byte sequence decodes to at
    least one code unit. *)
Lemma utf8_decode_truthy b0 b : truthy (utf8_decode (b0 :: b)) = true.
Proof.
  unfold utf8_decode.
  assert (H : ∃ cp cps, utf8_code_points (b0 :: b) = cp :: cps).
  { cbn [utf8_code_points]. repeat case_match; by eexists _, _. }
  destruct H as (cp & cps & ->). cbn [List.map concat].
  apply utf16_units_truthy.
Qed.

(** ** Appending *)

Lemma appendToWikiPage_ok args e w files :
  no_fault_but_rm_and_read e →
  acquires e w (config_url (target (Append args))) files →
  let fileName := normalizePageName (AppendToWikiPageArgs.pageName args) in
  (run (appendToWikiPage args) e w).1 = Ok (PageResult.Build_t true fileName)
  ∧ remotes (run (appendToWikiPage args) e w).2
    = <[config_url (target (Append args))
        := <[fileName
             := utf8_encode
                  (appended
                     (existing_content e (path_join (tmp_dir e) fileName) files)
                     (AppendToWikiPageArgs.content args))]> files]>
        (remotes w).
Proof.
  intros Hnf Hacq fileName. rewrite appendToWikiPage_scoped.
  destruct (run_scoped_result _ (append_steps args) e w files Hacq) as [-> ->].
  destruct (append_steps_ok args e (config_url (target (Append args))) files w
              Hnf) as (s' & Hs & Hr).
  rewrite Hs. cbn [fst snd]. by rewrite Hr.
Qed.

(** The content of an append.  When no call but possibly the final
    removal is rejected (so [git add] accepts the file name) and the
    clone succeeds, the append operation succeeds for every store, and
    the page file then holds (in UTF-8) the text
    [c1 + "\n\n" + c2] when the file existed with a non-empty content of
    text [c1], and [c2] alone when the file was absent or had no bytes:
    an absent page is created, not reported as missing. *)
Theorem append_content args e w files :
  let url := config_url (target (Append args)) in
  let fileName := normalizePageName (AppendToWikiPageArgs.pageName args) in
  let c2 := AppendToWikiPageArgs.content args in
  no_fault_but_rm e →
  acquires e w url files →
  (run (appendToWikiPage args) e w).1 = Ok (PageResult.Build_t true fileName)
  ∧ ∃ newContent,
      remotes (run (appendToWikiPage args) e w).2
      = <[url := <[fileName := utf8_encode newContent]> files]> (remotes w)
      ∧ match files !! fileName with
        | Some (b0 :: b) => newContent = utf8_decode (b0 :: b) ++ [10; 10] ++ c2
        | Some [] | None => newContent = c2
        end.
Proof.
  intros url fileName c2 Hnf Hacq. subst url.
  destruct (appendToWikiPage_ok args e w files (no_fault_weaken e Hnf) Hacq)
    as [-> ->].
  split; [reflexivity|]. eexists. split; [reflexivity|].
  unfold existing_content. rewrite Hnf by done. cbn [basename path_join].
  fold fileName. destruct (files !! fileName) as [[|b0 b]|]; try reflexivity.
  unfold appended. by rewrite utf8_decode_truthy.
Qed.

(** Appending "More" to the home page of the example store. *)
Lemma append_content_witness :
  no_fault_but_rm demo_env
  ∧ acquires demo_env demo_world (config_url demo_config) demo_files
  ∧ (run (appendToWikiPage (demo_append "Home" "More")) demo_env demo_world).1
    = Ok (PageResult.Build_t true (js "Home.md")).
Proof.
  assert (Hnf : no_fault_but_rm demo_env) by done.
  split; [exact Hnf|]. split; [exact demo_acquires|].
  exact (proj1 (append_content (demo_append "Home" "More") demo_env demo_world
                  demo_files Hnf demo_acquires)).
Defined.

(** ** A read that fails during an append *)

Lemma quiet_log {A} (m : M A) e s ev :
  quiet m → ev ∈ log (the_world s) → ev ∈ log (the_world (m e s).2).
Proof.
  intros Hq Hin. destruct (Hq e s) as (_ & (evs & -> & _) & _).
  apply elem_of_app. by left.
Qed.

Lemma append_steps_writes args e url files w :
  Called WriteFile
    (path_string (path_join (tmp_dir e)
                    (normalizePageName (AppendToWikiPageArgs.pageName args))))
  ∈ log (the_world (append_steps args (tmp_dir e) e (holding e url files w)).2).
Proof.
  unfold append_steps. cbv zeta.
  rewrite run_bind. erewrite read_or_empty by side.
  rewrite run_bind. erewrite fs_writeFile_run by side.
  destruct (fault e WriteFile _).
  - red_state. apply elem_of_app. right. by apply list_elem_of_singleton.
  - apply quiet_log.
    + quiet_steps.
    + red_state. apply elem_of_app. right. by apply list_elem_of_singleton.
Qed.

(** C10.  In the append operation, when the read of the page file is
    rejected, for whatever reason, the error is never the result of the
    operation; the operation goes on to write the file; and when the
    later calls succeed the page holds exactly the appended content,
    whether or not the file existed. *)
Theorem append_ignores_read_failure args e w files msg :
  let url := config_url (target (Append args)) in
  let fileName := normalizePageName (AppendToWikiPageArgs.pageName args) in
  let filePath := path_string (path_join (tmp_dir e) fileName) in
  acquires e w url files →
  fault e ReadFile filePath = Some msg →
  (∀ m, (run (appendToWikiPage args) e w).1 ≠ Throw (External ReadFile m))
  ∧ Called WriteFile filePath ∈ log (run (appendToWikiPage args) e w).2
  ∧ (no_fault_but_rm_and_read e →
     (run (appendToWikiPage args) e w).1 = Ok (PageResult.Build_t true fileName)
     ∧ remotes (run (appendToWikiPage args) e w).2
       = <[url := <[fileName := utf8_encode (AppendToWikiPageArgs.content args)]>
                    files]> (remotes w)).
Proof.
  intros url fileName filePath Hacq Hread. subst url. split; [|split].
  - intros m H. exact (run_throws_only benign _ e w _ (benign_append args) H).
  - rewrite appendToWikiPage_scoped, (run_scoped _ _ _ _ files Hacq). cbn [snd].
    destruct (log_released e
                (append_steps args (tmp_dir e) e
                   (holding e (config_url (target (Append args))) files w)).2)
      as [evs ->].
    apply elem_of_app. left. apply append_steps_writes.
  - intros Hnf.
    destruct (appendToWikiPage_ok args e w files Hnf Hacq) as [-> ->].
    split; [reflexivity|].
    unfold existing_content. fold fileName. fold filePath in Hread |- *.
    by rewrite Hread.
Qed.

(** The home page of the example store exists but cannot be read: the
    append succeeds and the page holds the appended text only. *)
Lemma append_ignores_read_failure_witness :
  acquires (unreadable demo_env) demo_world (config_url demo_config) demo_files
  ∧ fault (unreadable demo_env) ReadFile (js "/tmp/wiki-Ab3dE9/Home.md")
    = Some (js "EACCES")
  ∧ no_fault_but_rm_and_read (unreadable demo_env)
  ∧ remotes (run (appendToWikiPage (demo_append "Home" "More"))
               (unreadable demo_env) demo_world).2
    = <[config_url demo_config := <[js "Home.md" := utf8_encode (js "More")]>
                                    demo_files]> (remotes demo_world).
Proof.
  assert (Hacq : acquires (unreadable demo_env) demo_world
                   (config_url demo_config) demo_files) by exact demo_acquires.
  assert (Hnf : no_fault_but_rm_and_read (unreadable demo_env)).
  { intros [] a; done. }
  split; [exact Hacq|]. split; [reflexivity|]. split; [exact Hnf|].
  exact (proj2 (proj2 (proj2 (append_ignores_read_failure
           (demo_append "Home" "More") (unreadable demo_env) demo_world
           demo_files (js "EACCES") Hacq eq_refl)) Hnf)).
Defined.

(** ** UTF-8: what is written is what is read *)

Ltac euclid := zify; Z.to_euclidean_division_equations; lia.

Ltac split_test :=
  match goal with
  | |- context [?a =? ?b] => destruct (N.eqb_spec a b)
  | |- context [?a <? ?b] => destruct (N.ltb_spec a b)
  | |- context [?a <=? ?b] => destruct (N.leb_spec a b)
  end; cbn [andb orb negb]; try lia.

Lemma digits2 cp :
  cp < 0x800 → cp / 64 ≤ 31 ∧ cp mod 64 ≤ 63 ∧ cp = cp / 64 * 64 + cp mod 64.
Proof. intros. euclid. Qed.

Lemma digits3 cp :
  cp < 0x10000 →
  cp / 4096 ≤ 15 ∧ (cp / 64) mod 64 ≤ 63 ∧ cp mod 64 ≤ 63
  ∧ cp = cp / 4096 * 4096 + (cp / 64) mod 64 * 64 + cp mod 64.
Proof. intros. euclid. Qed.

Lemma digits4 cp :
  cp < 0x110000 →
  cp / 262144 ≤ 4 ∧ (cp / 4096) mod 64 ≤ 63 ∧ (cp / 64) mod 64 ≤ 63
  ∧ cp mod 64 ≤ 63
  ∧ cp = cp / 262144 * 262144 + (cp / 4096) mod 64 * 4096
         + (cp / 64) mod 64 * 64 + cp mod 64.
Proof. intros. euclid. Qed.

(** The decoder reads back the bytes of one scalar value. *)
Lemma utf8_code_points_bytes cp r :
  scalar cp → utf8_code_points (utf8_bytes cp ++ r) = cp :: utf8_code_points r.
Proof.
  intros [Hmax Hsur]. unfold utf8_bytes.
  destruct (N.ltb_spec cp 0x80);
    [|destruct (N.ltb_spec cp 0x800); [|destruct (N.ltb_spec cp 0x10000)]];
    cbn [app utf8_code_points]; unfold is_cont, second_of_3, second_of_4.
  - repeat split_test. reflexivity.
  - destruct (digits2 cp) as (D0 & D1 & E); [done|].
    revert E D0 D1. generalize (cp / 64) (cp mod 64). intros q m0 E ? ?.
    (repeat split_test); f_equal; lia.
  - destruct (digits3 cp) as (D0 & D1 & D2 & E); [done|].
    revert E D0 D1 D2. generalize (cp / 4096) ((cp / 64) mod 64) (cp mod 64).
    intros q m1 m0 E ? ? ?.
    (repeat split_test); f_equal; lia.
  - destruct (digits4 cp) as (D0 & D1 & D2 & D3 & E); [done|].
    revert E D0 D1 D2 D3.
    generalize (cp / 262144) ((cp / 4096) mod 64) ((cp / 64) mod 64) (cp mod 64).
    intros q m2 m1 m0 E ? ? ? ?.
    (repeat split_test); f_equal; lia.
Qed.

Lemma utf8_code_points_encode cps :
  Forall scalar cps → utf8_code_points (concat (List.map utf8_bytes cps)) = cps.
Proof.
  induction 1 as [|cp cps Hcp _ IH]; [reflexivity|].
  cbn [List.map concat]. by rewrite utf8_code_points_bytes, IH.
Qed.

(** The code points of a well-formed string are scalar values, and
    their code units are the string. *)
Lemma code_points_well_formed n s :
  (length s ≤ n)%nat → well_formed s = true →
  Forall scalar (code_points s)
  ∧ concat (List.map utf16_units (code_points s)) = s.
Proof.
  revert s. induction n as [|n IH]; intros [|h r] Hlen Hwf;
    try (split; [constructor|reflexivity]); simpl in Hlen; [lia|].
  cbn [well_formed code_points] in *.
  destruct (is_high h) eqn:Hh.
  - destruct r as [|l r']; [discriminate|].
    apply andb_true_iff in Hwf as [Hl Hwf]. rewrite Hl.
    destruct (IH r') as [Hs Hu]; [simpl in Hlen; lia|done|].
    unfold is_high, is_low in *. bool_to_prop.
    split.
    + constructor; [|done]. unfold scalar. lia.
    + cbn [List.map concat]. rewrite Hu. unfold utf16_units.
      destruct (N.ltb_spec (65536 + (h - 55296) * 1024 + (l - 56320)) 65536);
        [lia|].
      cbn [app]. f_equal; [euclid|]. f_equal. euclid.
  - apply andb_true_iff in Hwf as [Hwf Hr].
    apply andb_true_iff in Hwf as [Hl Hmax].
    apply negb_true_iff in Hl. rewrite Hl.
    destruct (IH r) as [Hs Hu]; [lia|done|].
    unfold is_high, is_low in *. apply N.ltb_lt in Hmax.
    split.
    + constructor; [|done]. unfold scalar.
      apply andb_false_iff in Hh as [Hh|Hh];
        apply andb_false_iff in Hl as [Hl|Hl]; bool_to_prop; lia.
    + cbn [List.map concat]. rewrite Hu. unfold utf16_units.
      by destruct (N.ltb_spec h 65536); [|lia].
Qed.

(** Reading a file back gives the well-formed text that was written. *)
Lemma utf8_roundtrip s : well_formed s = true → utf8_decode (utf8_encode s) = s.
Proof.
  intros Hwf. destruct (code_points_well_formed _ s (le_n _) Hwf) as [Hs Hu].
  unfold utf8_decode, utf8_encode. by rewrite utf8_code_points_encode.
Qed.

(** ** Writing, then reading *)

Lemma writeWikiPage_ok args e w files :
  no_fault_but_rm e →
  acquires e w (config_url (target (Write args))) files →
  let fileName := normalizePageName (WriteWikiPageArgs.pageName args) in
  (run (writeWikiPage args) e w).1
  = Ok (WriteResult.Build_t true fileName
          (js "https://github.com/" ++ WriteWikiPageArgs.owner args
           ++ js "/" ++ WriteWikiPageArgs.repo args ++ js "/wiki/"
           ++ replace_first md [] fileName))
  ∧ remotes (run (writeWikiPage args) e w).2
    = <[config_url (target (Write args))
        := <[fileName := utf8_encode (WriteWikiPageArgs.content args)]> files]>
        (remotes w).
Proof.
  intros Hnf Hacq fileName. rewrite writeWikiPage_scoped.
  destruct (run_scoped_result _ (write_steps args) e w files Hacq) as [-> ->].
  destruct (write_steps_ok args e (config_url (target (Write args))) files w Hnf)
    as (s' & Hs & Hr).
  rewrite Hs. cbn [fst snd]. by rewrite Hr.
Qed.

Lemma readWikiPage_ok args e w files b :
  no_fault_but_rm e →
  acquires e w (config_url (target (Read args))) files →
  files !! normalizePageName (WriteWikiPageArgs.pageName args) = Some b →
  (run (readWikiPage args) e w).1
  = Ok (ReadResult.Build_t true
          (normalizePageName (WriteWikiPageArgs.pageName args))
          (utf8_decode b)).
Proof.
  intros Hnf Hacq Hf. rewrite readWikiPage_scoped.
  destruct (run_scoped_result _ (read_steps args) e w files Hacq) as [-> _].
  by apply read_steps_ok.
Qed.

(** The round trip of a page [git add] accepts.  For every well-formed
    text [c], when the write of [c] runs without a rejected call, the
    store then holds the UTF-8
    bytes of [c] in the page file, and a read of the same page on the
    resulting world, again without a rejected call, returns exactly
    [c]. *)
Theorem write_then_read args e1 e2 w files c' msg' :
  let url := config_url (target (Write args)) in
  let fileName := normalizePageName (WriteWikiPageArgs.pageName args) in
  let c := WriteWikiPageArgs.content args in
  let w1 := (run (writeWikiPage args) e1 w).2 in
  well_formed c = true →
  no_fault_but_rm e1 →
  acquires e1 w url files →
  no_fault_but_rm e2 →
  dirs w1 !! tmp_dir e2 = None →
  (∃ r, (run (writeWikiPage args) e1 w).1 = Ok r)
  ∧ (∃ files1, remotes w1 !! url = Some files1
               ∧ files1 !! fileName = Some (utf8_encode c))
  ∧ (run (readWikiPage
            (WriteWikiPageArgs.Build_t
               (WriteWikiPageArgs.owner args) (WriteWikiPageArgs.repo args)
               (WriteWikiPageArgs.token args) (WriteWikiPageArgs.pageName args)
               c' msg')) e2 w1).1
    = Ok (ReadResult.Build_t true fileName c).
Proof.
  intros url fileName c w1 Hwf Hnf1 Hacq1 Hnf2 Hfresh.
  destruct (writeWikiPage_ok args e1 w files Hnf1 Hacq1) as [Hres Hrem].
  fold fileName url c w1 in Hres, Hrem.
  split; [by eexists|]. split.
  - eexists. rewrite Hrem, lookup_insert_eq. split; [reflexivity|].
    apply lookup_insert_eq.
  - erewrite readWikiPage_ok; [by rewrite (utf8_roundtrip c Hwf)|exact Hnf2| |].
    + repeat split; [by apply Hnf2|exact Hfresh|by apply Hnf2|].
      cbn [target WriteWikiPageArgs.owner WriteWikiPageArgs.repo
           WriteWikiPageArgs.token]. fold url.
      rewrite Hrem. apply lookup_insert_eq.
    + apply lookup_insert_eq.
Qed.

(** Writing a page with markdown characters, U+00E9, U+20AC and the
    surrogate pair of U+1F600 to the example store and reading it
    back. *)
Lemma write_then_read_witness :
  let args :=
    WriteWikiPageArgs.Build_t (js "octo") (js "notes") (js "t0ken")
      (js "Release  Notes")
      (js "# v2 *beta* `ok` [x](y) " ++ [233; 8364; 55357; 56832]) None in
  well_formed (WriteWikiPageArgs.content args) = true
  ∧ no_fault_but_rm demo_env
  ∧ acquires demo_env demo_world (config_url demo_config) demo_files
  ∧ dirs (run (writeWikiPage args) demo_env demo_world).2 !! tmp_dir demo_env
    = None
  ∧ (run (readWikiPage args) demo_env
       (run (writeWikiPage args) demo_env demo_world).2).1
    = Ok (ReadResult.Build_t true (js "Release-Notes.md")
            (WriteWikiPageArgs.content args)).
Proof.
  intros args.
  assert (Hwf : well_formed (WriteWikiPageArgs.content args) = true)
    by reflexivity.
  assert (Hnf : no_fault_but_rm demo_env) by done.
  assert (Hfresh : dirs (run (writeWikiPage args) demo_env demo_world).2
                   !! tmp_dir demo_env = None) by (vm_compute; reflexivity).
  split; [exact Hwf|]. split; [exact Hnf|]. split; [exact demo_acquires|].
  split; [exact Hfresh|].
  exact (proj2 (proj2 (write_then_read args demo_env demo_env demo_world
                         demo_files (WriteWikiPageArgs.content args) None
                         Hwf Hnf demo_acquires Hnf Hfresh))).
Defined.

(** The empty text also comes back as it was written. *)
Example write_then_read_empty :
  (run (readWikiPage (demo_write "Empty" "")) demo_env
     (run (writeWikiPage (demo_write "Empty" "")) demo_env demo_world).2).1
  = Ok (ReadResult.Build_t true (js "Empty.md") []).
Proof. vm_compute. reflexivity. Qed.

(** An unpaired surrogate is not text: it is written as U+FFFD. *)
Example write_then_read_lone_surrogate :
  let args :=
    WriteWikiPageArgs.Build_t (js "octo") (js "notes") (js "t0ken")
      (js "Odd") [55357] None in
  (run (readWikiPage args) demo_env
     (run (writeWikiPage args) demo_env demo_world).2).1
  = Ok (ReadResult.Build_t true (js "Odd.md") [65533]).
Proof. vm_compute. reflexivity. Qed.

(** ** Missing pages *)

Lemma readWikiPage_missing args e w files :
  acquires e w (config_url (target (Read args))) files →
  files !! normalizePageName (WriteWikiPageArgs.pageName args) = None →
  (run (readWikiPage args) e w).1
  = Throw (PageNotFound (normalizePageName (WriteWikiPageArgs.pageName args))).
Proof.
  intros Hacq Hf. rewrite readWikiPage_scoped.
  destruct (run_scoped_result _ (read_steps args) e w files Hacq) as [-> _].
  by apply read_steps_missing.
Qed.

Lemma deleteWikiPage_missing args e w files :
  acquires e w (config_url (target (Delete args))) files →
  files !! normalizePageName (DeleteWikiPageArgs.pageName args) = None →
  (run (deleteWikiPage args) e w).1
  = Throw (PageNotFound (normalizePageName (DeleteWikiPageArgs.pageName args))).
Proof.
  intros Hacq Hf. rewrite deleteWikiPage_scoped.
  destruct (run_scoped_result _ (delete_steps args) e w files Hacq) as [-> _].
  by apply delete_steps_missing.
Qed.

(** C5.  When the file of the page is absent from the cloned store, the
    read and the delete operations fail with the error
    "Page <file> does not exist", whatever else the environment does;
    the write and the append operations never throw that error, for any
    store and any environment, and without a rejected call both succeed
    on the absent page. *)
Theorem missing_page owner repo token pageName e w files :
  let fileName := normalizePageName pageName in
  acquires e w (getWikiUrl owner repo token) files →
  files !! fileName = None →
  (∀ content msg,
     (run (readWikiPage
             (WriteWikiPageArgs.Build_t owner repo token pageName content msg))
        e w).1 = Throw (PageNotFound fileName))
  ∧ (∀ msg,
       (run (deleteWikiPage
               (DeleteWikiPageArgs.Build_t owner repo token pageName msg))
          e w).1 = Throw (PageNotFound fileName))
  ∧ message (PageNotFound fileName) = js "Page " ++ fileName ++ js " does not exist"
  ∧ (∀ content msg f,
       (run (writeWikiPage
               (WriteWikiPageArgs.Build_t owner repo token pageName content msg))
          e w).1 ≠ Throw (PageNotFound f))
  ∧ (∀ content msg f,
       (run (appendToWikiPage
               (AppendToWikiPageArgs.Build_t owner repo token pageName content msg))
          e w).1 ≠ Throw (PageNotFound f))
  ∧ (no_fault_but_rm e →
     ∀ content msg,
       (∃ r, (run (writeWikiPage
                     (WriteWikiPageArgs.Build_t owner repo token pageName content
                        msg)) e w).1 = Ok r)
       ∧ (run (appendToWikiPage
                 (AppendToWikiPageArgs.Build_t owner repo token pageName content
                    msg)) e w).1 = Ok (PageResult.Build_t true fileName)).
Proof.
  intros fileName Hacq Hf. repeat split.
  - intros content msg.
    exact (readWikiPage_missing
             (WriteWikiPageArgs.Build_t owner repo token pageName content msg)
             e w files Hacq Hf).
  - intros msg.
    exact (deleteWikiPage_missing
             (DeleteWikiPageArgs.Build_t owner repo token pageName msg)
             e w files Hacq Hf).
  - intros content msg f H.
    exact (run_throws_only benign _ e w _ (benign_write _) H).
  - intros content msg f H.
    exact (run_throws_only benign _ e w _ (benign_append _) H).
  - eexists. apply (writeWikiPage_ok _ e w files); done.
  - apply (appendToWikiPage_ok
             (AppendToWikiPageArgs.Build_t owner repo token pageName content msg)
             e w files); [by apply no_fault_weaken|done].
Qed.

(** The example store has no page "Missing". *)
Lemma missing_page_witness :
  acquires demo_env demo_world (getWikiUrl (js "octo") (js "notes") (js "t0ken"))
    demo_files
  ∧ demo_files !! normalizePageName (js "Missing") = None
  ∧ (run (readWikiPage (demo_write "Missing" "")) demo_env demo_world).1
    = Throw (PageNotFound (js "Missing.md"))
  ∧ (run (deleteWikiPage (demo_delete "Missing")) demo_env demo_world).1
    = Throw (PageNotFound (js "Missing.md")).
Proof.
  assert (Hf : demo_files !! normalizePageName (js "Missing") = None)
    by (vm_compute; reflexivity).
  split; [exact demo_acquires|]. split; [exact Hf|].
  pose proof (missing_page (js "octo") (js "notes") (js "t0ken") (js "Missing")
                demo_env demo_world demo_files demo_acquires Hf)
    as (Hread & Hdelete & _).
  split; [exact (Hread (js "") None) | exact (Hdelete None)].
Defined.

(** ** A clone that fails *)

(** The clone step fails when the call is rejected or when there is no
    store at the URL. *)
Lemma git_clone_fails e w s url dir err :
  clone_error e w url = Some err →
  remotes (the_world s) = remotes w →
  git_clone url dir e s
  = (Throw (External GitClone err), log_event (Called GitClone url) s).
Proof.
  unfold clone_error. intros Herr Hrem. unfold_prims. red_state.
  destruct (fault e GitClone url) as [m|]; [by injection Herr as ->|].
  red_state. rewrite Hrem.
  by destruct (remotes w !! url); [|injection Herr as <-].
Qed.

Lemma fs_mkdtemp_fresh e s :
  fault e Mkdtemp (tmp_prefix e) = None →
  dirs (the_world s) !! tmp_dir e = None →
  fs_mkdtemp (tmp_prefix e) e s
  = (Ok (tmp_dir e),
     set_dir (tmp_dir e) (checkout [] ∅)
       (log_event (Called Mkdtemp (tmp_prefix e)) s)).
Proof.
  intros Hmk Hfresh. unfold_prims. red_state. rewrite Hmk. red_state.
  fold (tmp_dir e). by rewrite Hfresh.
Qed.

(** [cloneWiki] when the clone step fails: the removal is called, and
    its outcome decides which error is thrown. *)
Lemma cloneWiki_fails config e s err :
  fault e Mkdtemp (tmp_prefix e) = None →
  dirs (the_world s) !! tmp_dir e = None →
  clone_error e (the_world s) (config_url config) = Some err →
  let s1 :=
    log_event (Called Rm (tmp_dir e))
      (log_event (Called GitClone (config_url config))
         (set_dir (tmp_dir e) (checkout [] ∅)
            (log_event (Called Mkdtemp (tmp_prefix e)) s))) in
  cloneWiki config e s
  = match fault e Rm (tmp_dir e) with
    | Some rm_err => (Throw (External Rm rm_err), s1)
    | None => (Throw (CloneFailed err), remove_dir (tmp_dir e) s1)
    end.
Proof.
  intros Hmk Hfresh Hcl s1.
  unfold cloneWiki. rewrite run_bind. cbn [get_env].
  fold (tmp_prefix e). fold (config_url config).
  rewrite run_bind, (fs_mkdtemp_fresh e s Hmk Hfresh), run_try_catch, run_bind.
  rewrite (git_clone_fails e (the_world s) _ _ _ err Hcl) by reflexivity.
  unfold_prims. red_state. subst s1. by destruct (fault e Rm (tmp_dir e)).
Qed.

Lemma scoped_clone_failure {A} config (steps : jsstring → M A) e w err :
  fault e Mkdtemp (tmp_prefix e) = None →
  dirs w !! tmp_dir e = None →
  clone_error e w (config_url config) = Some err →
  let s1 :=
    log_event (Called Rm (tmp_dir e))
      (log_event (Called GitClone (config_url config))
         (set_dir (tmp_dir e) (checkout [] ∅)
            (log_event (Called Mkdtemp (tmp_prefix e)) (initial w)))) in
  run (scoped config steps) e w
  = match fault e Rm (tmp_dir e) with
    | Some rm_err => (Throw (External Rm rm_err), the_world s1)
    | None => (Throw (CloneFailed err), the_world (remove_dir (tmp_dir e) s1))
    end.
Proof.
  intros Hmk Hfresh Hcl s1.
  unfold run, scoped. rewrite run_bind. cbn [set_tmpDir the_world var_tmpDir].
  rewrite run_try_finally, run_bind. fold (initial w).
  rewrite (cloneWiki_fails config e (initial w) err Hmk Hfresh Hcl).
  fold s1. destruct (fault e Rm (tmp_dir e)); cbn [fst snd];
    by rewrite released_none.
Qed.

Lemma invocation_clone_failure i e w err :
  fault e Mkdtemp (tmp_prefix e) = None →
  dirs w !! tmp_dir e = None →
  clone_error e w (config_url (target i)) = Some err →
  let s1 :=
    log_event (Called Rm (tmp_dir e))
      (log_event (Called GitClone (config_url (target i)))
         (set_dir (tmp_dir e) (checkout [] ∅)
            (log_event (Called Mkdtemp (tmp_prefix e)) (initial w)))) in
  (error_of i e w, world_after i e w)
  = match fault e Rm (tmp_dir e) with
    | Some rm_err => (Some (External Rm rm_err), the_world s1)
    | None => (Some (CloneFailed err), the_world (remove_dir (tmp_dir e) s1))
    end.
Proof.
  intros Hmk Hfresh Hcl s1.
  destruct i as [a|a|a|cmp a|a]; cbn [error_of world_after];
    [rewrite writeWikiPage_scoped | rewrite readWikiPage_scoped
    | rewrite appendToWikiPage_scoped | rewrite listWikiPages_scoped
    | rewrite deleteWikiPage_scoped];
    rewrite (scoped_clone_failure _ _ e w err Hmk Hfresh Hcl); fold s1;
    by destruct (fault e Rm (tmp_dir e)).
Qed.

(** When the removal of the directory succeeds, a failed clone is
    reported as the specification says, for each of the five operations:
    the error is the wrapper of line 71 around the message of the
    transport, the directory is gone, and the clone was called once. *)
Lemma clone_failure_clean i e w err :
  fault e Mkdtemp (tmp_prefix e) = None →
  dirs w !! tmp_dir e = None →
  clone_error e w (config_url (target i)) = Some err →
  fault e Rm (tmp_dir e) = None →
  error_of i e w = Some (CloneFailed err)
  ∧ message (CloneFailed err) = js "Failed to clone wiki: " ++ err
  ∧ dirs (world_after i e w) = dirs w
  ∧ log (world_after i e w)
    = log w ++ [Called Mkdtemp (tmp_prefix e);
                Called GitClone (config_url (target i));
                Called Rm (tmp_dir e)].
Proof.
  intros Hmk Hfresh Hcl Hrm.
  pose proof (invocation_clone_failure i e w err Hmk Hfresh Hcl) as H.
  rewrite Hrm in H. cbv zeta in H. injection H as -> ->.
  split; [reflexivity|]. split; [reflexivity|]. red_state. split.
  - by rewrite delete_insert_eq, delete_id.
  - by rewrite <- !(assoc_L (++)).
Qed.

(** C8.  When the clone step fails and the removal of the fresh
    directory fails too, each of the five operations throws the error of
    the removal: the wrapper "Failed to clone wiki: ..." is not thrown,
    the message of the transport is lost, and the directory stays. *)
Theorem clone_failure_masked i e w err rm_err :
  fault e Mkdtemp (tmp_prefix e) = None →
  dirs w !! tmp_dir e = None →
  clone_error e w (config_url (target i)) = Some err →
  fault e Rm (tmp_dir e) = Some rm_err →
  error_of i e w = Some (External Rm rm_err)
  ∧ error_of i e w ≠ Some (CloneFailed err)
  ∧ is_Some (dirs (world_after i e w) !! tmp_dir e).
Proof.
  intros Hmk Hfresh Hcl Hrm.
  pose proof (invocation_clone_failure i e w err Hmk Hfresh Hcl) as H.
  rewrite Hrm in H. cbv zeta in H. injection H as -> ->.
  split; [reflexivity|]. split; [discriminate|].
  red_state. rewrite lookup_insert_eq. by eexists.
Qed.

(** The read operation on the example store when the clone is refused
    and the directory is busy. *)
Lemma clone_failure_masked_witness :
  fault busy_env Mkdtemp (tmp_prefix busy_env) = None
  ∧ dirs demo_world !! tmp_dir busy_env = None
  ∧ clone_error busy_env demo_world (config_url demo_config)
    = Some (js "Authentication failed")
  ∧ fault busy_env Rm (tmp_dir busy_env) = Some (js "EBUSY")
  ∧ thrown (run (readWikiPage (demo_write "Home" "")) busy_env demo_world).1
    = Some (External Rm (js "EBUSY")).
Proof.
  repeat (split; [reflexivity|]).
  exact (proj1 (clone_failure_masked (Read (demo_write "Home" "")) busy_env
                  demo_world (js "Authentication failed") (js "EBUSY")
                  eq_refl eq_refl eq_refl eq_refl)).
Defined.

(** ** Listing *)

Section sorting.
Context {A : Type} (cmp : A → A → Z).

Lemma sort_insert_perm x l : sort_insert cmp x l ≡ₚ x :: l.
Proof.
  induction l as [|y l IH]; simpl; [done|].
  destruct (cmp x y <=? 0)%Z; [done|]. by rewrite IH, Permutation_swap.
Qed.

Lemma array_sort_perm l : array_sort cmp l ≡ₚ l.
Proof.
  induction l as [|x l IH]; simpl; [done|].
  fold (array_sort cmp l). by rewrite sort_insert_perm, IH.
Qed.

Hypothesis cmp_total : total_cmp cmp.

Lemma sort_insert_sorted x l :
  Sorted (λ a b, (cmp a b ≤ 0)%Z) l →
  Sorted (λ a b, (cmp a b ≤ 0)%Z) (sort_insert cmp x l).
Proof.
  induction 1 as [|y l Hs IH Hhd]; simpl; [by repeat constructor|].
  destruct (Z.leb_spec (cmp x y) 0) as [Hle|Hgt].
  - constructor; [by constructor|]. by constructor.
  - constructor; [exact IH|].
    destruct l as [|z l]; simpl.
    + constructor. destruct (cmp_total x y); lia.
    + destruct (cmp x z <=? 0)%Z.
      * constructor. destruct (cmp_total x y); lia.
      * constructor. by inversion Hhd.
Qed.

Lemma array_sort_sorted l : Sorted (λ a b, (cmp a b ≤ 0)%Z) (array_sort cmp l).
Proof.
  induction l as [|x l IH]; simpl; [constructor|].
  by apply sort_insert_sorted.
Qed.
End sorting.

Lemma stat_each_ok e dir url files mdFiles :
  no_fault_but_rm e →
  Forall (λ f, is_Some (files !! f)) mdFiles →
  ∀ s pageInfos,
    dirs (the_world s) !! dir = Some (checkout url files) →
    (stat_each dir mdFiles pageInfos e s).1
    = Ok (pageInfos ++ List.map (page_info files) mdFiles).
Proof.
  intros Hnf. induction 1 as [|file rest [b Hb] _ IH]; intros s pageInfos Hd.
  - simpl. by rewrite app_nil_r.
  - cbn [stat_each]. rewrite run_bind. erewrite fs_stat_size_run by exact Hd.
    rewrite Hnf by done. red_state. rewrite Hb.
    rewrite IH by (red_state; exact Hd).
    rewrite <- (assoc_L (++)). cbn [List.map]. unfold page_info.
    by rewrite Hb.
Qed.

Lemma md_files_present files :
  Forall (λ f, is_Some (files !! f)) (md_files files).
Proof.
  apply List.Forall_forall. intros f Hin.
  apply List.filter_In in Hin as [Hin _].
  apply list_elem_of_In, list_elem_of_fmap in Hin as ([f' b] & -> & Hin).
  apply elem_of_map_to_list in Hin. by exists b.
Qed.

Lemma list_steps_ok cmp e url files w :
  no_fault_but_rm e →
  (list_steps cmp (tmp_dir e) e (holding e url files w)).1
  = Ok (array_sort (by_name cmp) (List.map (page_info files) (md_files files))).
Proof.
  intros Hnf. unfold list_steps. cbv zeta.
  rewrite run_bind. erewrite fs_readdir_run by side.
  rewrite Hnf by done. red_state.
  cbn [List.filter].
  replace (endsWith (js ".git") md) with false by reflexivity.
  fold (md_files files).
  rewrite run_bind.
  pose proof (stat_each_ok e (tmp_dir e) url files (md_files files) Hnf
                (md_files_present files)
                (log_event (Called Readdir (tmp_dir e)) (holding e url files w))
                []) as Hstat.
  destruct (stat_each _ _ _ _ _) as [r s']. cbn [fst] in Hstat.
  rewrite Hstat by side. reflexivity.
Qed.

(** A name without a dot before the extension is stripped as
    intended. *)
Lemma replace_first_extension stem :
  46 ∉ stem → replace_first md [] (stem ++ md) = stem.
Proof.
  change md with [46; 109; 100].
  induction stem as [|c stem IH]; intros Hdot; [reflexivity|].
  apply not_elem_of_cons in Hdot as [Hc Hdot].
  cbn [app replace_first startsWith].
  destruct (N.eqb_spec 46 c) as [E|_]; [by destruct Hc|].
  cbn [andb]. f_equal. by apply IH.
Qed.

(** What the list operation returns when no call is rejected: one record
    for each file of the store whose name ends with [.md], with the file
    name as path, the number of bytes as size and the file name without
    its first [.md] as name, sorted by name when the collation is a
    total order of the names. *)
Lemma listWikiPages_ok cmp args e w files :
  no_fault_but_rm e →
  acquires e w (config_url (target (List cmp args))) files →
  ∃ records,
    (run (listWikiPages cmp args) e w).1 = Ok records
    ∧ records ≡ₚ List.map (page_info files) (md_files files)
    ∧ NoDup (md_files files)
    ∧ (∀ f, f ∈ md_files files ↔ is_Some (files !! f) ∧ endsWith f md = true)
    ∧ (total_cmp cmp → Sorted (λ a b, (by_name cmp a b ≤ 0)%Z) records).
Proof.
  intros Hnf Hacq. rewrite listWikiPages_scoped.
  destruct (run_scoped_result _ (list_steps cmp) e w files Hacq) as [-> _].
  rewrite list_steps_ok by exact Hnf.
  eexists. split; [reflexivity|]. split; [apply array_sort_perm|].
  split; [|split].
  - apply NoDup_ListNoDup, List.NoDup_filter, NoDup_ListNoDup,
      NoDup_fst_map_to_list.
  - intros f. unfold md_files. rewrite list_elem_of_In, List.filter_In.
    rewrite <- list_elem_of_In, list_elem_of_fmap. split.
    + intros [([f' b] & -> & Hin) Hmd]. split; [|done].
      apply elem_of_map_to_list in Hin. by exists b.
    + intros [[b Hb] Hmd]. split; [|done].
      exists (f, b). split; [done|]. by apply elem_of_map_to_list.
  - intros Htot. apply array_sort_sorted. intros a b. apply Htot.
Qed.

(** C7.  A store that holds the page file "a.mdb.md" is listed with the
    name "ab.md": line 187 deletes the first [.md] of the file name, not
    the extension, whereas the file name minus the extension is
    "a.mdb". *)
Theorem listWikiPages_dotted_name cmp :
  (run (listWikiPages cmp demo_list) demo_env dotted_world).1
  = Ok [WikiPageInfo.Build_t (js "ab.md") (js "a.mdb.md") 2]
  ∧ strip_extension (js "a.mdb.md") = js "a.mdb"
  ∧ replace_first md [] (js "a.mdb.md") ≠ strip_extension (js "a.mdb.md").
Proof. split; [|split]; [vm_compute; reflexivity|reflexivity|discriminate]. Qed.

Lemma code_unit_compare_total : total_cmp code_unit_compare.
Proof.
  intros a. induction a as [|x a IH]; intros [|y b]; simpl; try lia.
  destruct (N.ltb_spec x y), (N.ltb_spec y x); try lia.
  apply IH.
Qed.

(** The directory of the specification: "B.md", "a.md" and "c.txt" give
    two records, here in the order of the code units. *)
Example listWikiPages_two_of_three :
  (run (listWikiPages code_unit_compare demo_list) demo_env
     {| remotes := {[ config_url demo_config :=
                        {[ js "B.md" := js "bb"; js "a.md" := js "a";
                           js "c.txt" := js "ccc" ]} ]};
        dirs := ∅; log := [] |}).1
  = Ok [WikiPageInfo.Build_t (js "B") (js "B.md") 2;
        WikiPageInfo.Build_t (js "a") (js "a.md") 1].
Proof. vm_compute. reflexivity. Qed.

(** * Further properties of the resolver *)

(** The file name is a dot-free string of allowed characters followed
    by the extension. *)
Lemma file_name_stem t :
  ∃ stem, normalizePageName t = stem ++ md
          ∧ Forall (λ c, is_word c = true) stem
          ∧ 46 ∉ stem.
Proof.
  exists (List.filter is_word (spec_hyphenate t)).
  split; [apply normalizePageName_stem|].
  pose proof (filter_is_word (spec_hyphenate t)) as Hw. split; [done|].
  intros Hdot. rewrite Forall_forall in Hw. by specialize (Hw _ Hdot).
Qed.

(** X1.  The file name of any title is a string of letters, digits,
    hyphens and underscores followed by [.md]: it ends with the
    extension, has at least three characters, and holds no slash, no
    backslash, no NUL and no whitespace, so joined to a directory it
    names a file directly in that directory. *)
Theorem normalizePageName_shape t :
  (∃ stem, normalizePageName t = stem ++ md
           ∧ Forall (λ c, is_word c = true) stem)
  ∧ endsWith (normalizePageName t) md = true
  ∧ (3 ≤ length (normalizePageName t))%nat
  ∧ Forall (λ c, c ≠ 47 ∧ c ≠ 92 ∧ c ≠ 0 ∧ is_space c = false)
      (normalizePageName t).
Proof.
  rewrite normalizePageName_stem.
  pose proof (filter_is_word (spec_hyphenate t)) as Hw.
  set (stem := List.filter is_word (spec_hyphenate t)) in *.
  split; [by exists stem|]. split; [|split].
  - rewrite endsWith_suffix. apply bool_decide_eq_true. by exists stem.
  - rewrite length_app. change (length md) with 3%nat. lia.
  - apply Forall_app. split.
    + eapply Forall_impl; [exact Hw|]. intros c Hc.
      repeat split; try (intros ->; discriminate Hc).
      by apply word_not_space.
    + by repeat constructor.
Qed.

(** X2.  The name without the extension, as the page URL and the list
    operation give it, resolves to the same file name again; a title
    made only of letters, digits, hyphens and underscores is its own
    name. *)
Theorem normalizePageName_name_roundtrip t :
  normalizePageName (replace_first md [] (normalizePageName t))
  = normalizePageName t
  ∧ (Forall (λ c, is_word c = true) t → normalizePageName t = t ++ md).
Proof.
  assert (Hclean : ∀ n, Forall (λ c, is_word c = true) n →
                        normalizePageName n = n ++ md).
  { intros n Hn. rewrite normalizePageName_stem, hyphenate_no_space.
    - by rewrite filter_all.
    - eapply Forall_impl; [exact Hn|]. apply word_not_space. }
  split; [|apply Hclean].
  rewrite (normalizePageName_stem t).
  pose proof (filter_is_word (spec_hyphenate t)) as Hw.
  set (stem := List.filter is_word (spec_hyphenate t)) in *.
  rewrite replace_first_extension; [by apply Hclean|].
  intros Hdot. rewrite Forall_forall in Hw. by specialize (Hw _ Hdot).
Qed.

Lemma normalizePageName_name_roundtrip_witness :
  Forall (λ c, is_word c = true) (js "API-Documentation")
  ∧ normalizePageName (js "API-Documentation") = js "API-Documentation" ++ md.
Proof.
  assert (H : Forall (λ c, is_word c = true) (js "API-Documentation"))
    by (by repeat constructor).
  split; [exact H|].
  exact (proj2 (normalizePageName_name_roundtrip (js "API-Documentation")) H).
Defined.

(** *** Characters that do not count *)

Lemma span_app_stop cls r d :
  match d with [] => True | c :: _ => cls c = false end →
  span cls (r ++ d) = span cls r.
Proof.
  intros Hd. induction r as [|x r IH]; simpl.
  - destruct d as [|c d]; [done|]. simpl. by rewrite Hd.
  - by rewrite IH.
Qed.

Lemma drop_span_app cls r d :
  drop (span cls r) (r ++ d) = drop (span cls r) r ++ d.
Proof.
  induction r as [|x r IH]; simpl; [done|]. by destruct (cls x).
Qed.

Lemma hyphenate_app_stop t d :
  match d with [] => True | c :: _ => is_space c = false end →
  Forall (λ c, is_space c = false) d →
  spec_hyphenate (t ++ d) = spec_hyphenate t ++ d.
Proof.
  intros Hhd Hd. remember (length t) as n eqn:Hn. revert t Hn.
  induction n as [n IH] using lt_wf_ind. intros [|c r] Hn.
  - simpl. by apply hyphenate_no_space.
  - cbn [app]. rewrite !spec_hyphenate_cons. simpl in Hn.
    destruct (is_space c).
    + rewrite (span_app_stop _ _ _ Hhd), drop_span_app.
      rewrite (IH (length (drop (span is_space r) r))); [done| |done].
      rewrite length_drop. lia.
    + cbn [app]. f_equal. apply (IH (length r)); [lia|done].
Qed.

Lemma hyphenate_stop_app d t :
  Forall (λ c, is_space c = false) d →
  spec_hyphenate (d ++ t) = d ++ spec_hyphenate t.
Proof.
  induction 1 as [|c d Hc _ IH]; [done|].
  cbn [app]. by rewrite spec_hyphenate_cons, Hc, IH.
Qed.

(** X3.  Characters that are neither allowed nor whitespace do not count
    at either end of a title: with or without them the title resolves to
    the same file, so such titles share one page. *)
Theorem normalizePageName_ignores_punctuation t d :
  Forall (λ c, is_word c = false ∧ is_space c = false) d →
  normalizePageName (t ++ d) = normalizePageName t
  ∧ normalizePageName (d ++ t) = normalizePageName t.
Proof.
  intros Hd.
  assert (Hns : Forall (λ c, is_space c = false) d)
    by (eapply Forall_impl; [exact Hd|]; by intros c [_ ?]).
  assert (Hnw : Forall (λ c, is_word c = false) d)
    by (eapply Forall_impl; [exact Hd|]; by intros c [? _]).
  rewrite !normalizePageName_stem. split; f_equal.
  - rewrite hyphenate_app_stop; [|by destruct Hns|done].
    by rewrite List.filter_app, (filter_none _ _ Hnw), app_nil_r.
  - rewrite hyphenate_stop_app by done.
    by rewrite List.filter_app, (filter_none _ _ Hnw).
Qed.

Lemma normalizePageName_ignores_punctuation_witness :
  Forall (λ c, is_word c = false ∧ is_space c = false) (js "?!")
  ∧ normalizePageName (js "Release notes" ++ js "?!")
    = normalizePageName (js "Release notes").
Proof.
  assert (H : Forall (λ c, is_word c = false ∧ is_space c = false) (js "?!"))
    by (by repeat constructor).
  split; [exact H|].
  exact (proj1 (normalizePageName_ignores_punctuation (js "Release notes")
                  (js "?!") H)).
Defined.

(** * The clone URL *)

Lemma split_at_first (x : N) a a' b b' :
  x ∉ a → x ∉ a' → a ++ x :: b = a' ++ x :: b' → a = a' ∧ b = b'.
Proof.
  revert a'. induction a as [|y a IH]; intros [|y' a'] Ha Ha' E; simpl in E.
  - by injection E.
  - injection E as <- _. by apply not_elem_of_cons in Ha' as [? _].
  - injection E as -> _. by apply not_elem_of_cons in Ha as [? _].
  - injection E as -> E. apply not_elem_of_cons in Ha as [_ Ha].
    apply not_elem_of_cons in Ha' as [_ Ha'].
    destruct (IH a' Ha Ha' E) as [-> ->]. done.
Qed.

(** X4.  Two configurations with the same clone URL are the same
    configuration, as long as the tokens hold no [@] and the owners no
    slash: different repositories are never cloned from one URL. *)
Theorem getWikiUrl_injective owner repo token owner' repo' token' :
  64 ∉ token → 64 ∉ token' → 47 ∉ owner → 47 ∉ owner' →
  getWikiUrl owner repo token = getWikiUrl owner' repo' token' →
  owner = owner' ∧ repo = repo' ∧ token = token'.
Proof.
  intros Ht Ht' Ho Ho' E. unfold getWikiUrl in E.
  apply app_inv_head in E.
  change (js "@github.com/") with (64 :: js "github.com/") in E.
  cbn [app] in E.
  apply split_at_first in E as [-> E]; [|done..].
  apply app_inv_head in E.
  change (js "/") with [47] in E. cbn [app] in E.
  apply split_at_first in E as [-> E]; [|done..].
  by apply app_inv_tail in E as ->.
Qed.

Lemma getWikiUrl_injective_witness :
  (64 ∉ js "t0ken") ∧ (47 ∉ js "octo")
  ∧ getWikiUrl (js "octo") (js "notes") (js "t0ken")
    = js "https://t0ken@github.com/octo/notes.wiki.git"
  ∧ js "octo" = js "octo" ∧ js "notes" = js "notes" ∧ js "t0ken" = js "t0ken".
Proof.
  assert (Ht : 64 ∉ js "t0ken")
    by (apply (bool_decide_unpack _); vm_compute; exact I).
  assert (Ho : 47 ∉ js "octo")
    by (apply (bool_decide_unpack _); vm_compute; exact I).
  split; [exact Ht|]. split; [exact Ho|]. split; [reflexivity|].
  exact (getWikiUrl_injective (js "octo") (js "notes") (js "t0ken")
           (js "octo") (js "notes") (js "t0ken") Ht Ht Ho Ho eq_refl).
Defined.

(** * What the operations leave alone *)

(** ** The remote stores *)

Lemma keeps_ret {A} (a : A) : keeps_remotes (ret a).
Proof. by intros e s. Qed.

Lemma keeps_throw {A} err : keeps_remotes (@throw A err).
Proof. by intros e s. Qed.

Lemma keeps_set_tmpDir v : keeps_remotes (set_tmpDir v).
Proof. by intros e s. Qed.

Lemma keeps_bind {A B} (m : M A) (k : A → M B) :
  keeps_remotes m → (∀ a, keeps_remotes (k a)) → keeps_remotes (m ≫= k).
Proof.
  intros Hm Hk e s. rewrite run_bind. specialize (Hm e s).
  destruct (m e s) as [[a|err] s']; simpl in *; [|done].
  by rewrite Hk.
Qed.

Lemma keeps_try_catch {A} (m : M A) h :
  keeps_remotes m → (∀ err, keeps_remotes (h err)) →
  keeps_remotes (try_catch m h).
Proof.
  intros Hm Hh e s. rewrite run_try_catch. specialize (Hm e s).
  destruct (m e s) as [[a|err] s']; simpl in *; [done|].
  by rewrite Hh.
Qed.

Lemma keeps_try_finally {A} (m : M A) :
  keeps_remotes m → keeps_remotes (try_finally m finally_cleanup).
Proof.
  intros Hm e s. rewrite run_try_finally. cbn [snd].
  by rewrite remotes_released.
Qed.

Ltac keeps_prim :=
  let e := fresh "e" in let s := fresh "s" in
  intros e s; unfold_prims; red_state;
  repeat case_match; simplify_eq/=; reflexivity.

Lemma keeps_mkdtemp prefix : keeps_remotes (fs_mkdtemp prefix).
Proof. keeps_prim. Qed.

Lemma keeps_rm dir : keeps_remotes (fs_rm dir).
Proof. keeps_prim. Qed.

Lemma keeps_access p : keeps_remotes (fs_access p).
Proof. keeps_prim. Qed.

Lemma keeps_readFile p : keeps_remotes (fs_readFile p).
Proof. keeps_prim. Qed.

Lemma keeps_writeFile p data : keeps_remotes (fs_writeFile p data).
Proof. keeps_prim. Qed.

Lemma keeps_unlink p : keeps_remotes (fs_unlink p).
Proof. keeps_prim. Qed.

Lemma keeps_readdir dir : keeps_remotes (fs_readdir dir).
Proof. keeps_prim. Qed.

Lemma keeps_stat_size p : keeps_remotes (fs_stat_size p).
Proof. keeps_prim. Qed.

Lemma keeps_clone url dir : keeps_remotes (git_clone url dir).
Proof. keeps_prim. Qed.

Lemma keeps_add dir f : keeps_remotes (git_add dir f).
Proof. keeps_prim. Qed.

Lemma keeps_commit dir msg : keeps_remotes (git_commit dir msg).
Proof. keeps_prim. Qed.

Lemma keeps_get_env : keeps_remotes get_env.
Proof. by intros e s. Qed.

Lemma keeps_stat_each dir mdFiles pageInfos :
  keeps_remotes (stat_each dir mdFiles pageInfos).
Proof.
  revert pageInfos. induction mdFiles as [|file rest IH]; intros pageInfos.
  - apply keeps_ret.
  - apply keeps_bind; [apply keeps_stat_size | intros size; apply IH].
Qed.

Create HintDb keeps discriminated.
#[local] Hint Resolve keeps_ret keeps_throw keeps_set_tmpDir keeps_mkdtemp
  keeps_rm keeps_access keeps_readFile keeps_writeFile keeps_unlink
  keeps_readdir keeps_stat_size keeps_clone keeps_add keeps_commit
  keeps_get_env keeps_stat_each : keeps.

Ltac keeps_steps :=
  cbv zeta;
  repeat first
    [ solve [auto with keeps]
    | apply keeps_try_catch; [|intros ?]
    | apply keeps_bind; [|intros ?] ].

Lemma keeps_cloneWiki config : keeps_remotes (cloneWiki config).
Proof. unfold cloneWiki. keeps_steps. Qed.

Lemma keeps_read_steps args dir : keeps_remotes (read_steps args dir).
Proof. unfold read_steps. keeps_steps. Qed.

Lemma keeps_list_steps cmp dir : keeps_remotes (list_steps cmp dir).
Proof. unfold list_steps. keeps_steps. Qed.

Lemma keeps_scoped {A} config (steps : jsstring → M A) :
  (∀ dir, keeps_remotes (steps dir)) → keeps_remotes (scoped config steps).
Proof.
  intros Hs. unfold scoped.
  apply keeps_bind; [apply keeps_set_tmpDir|]. intros _.
  apply keeps_try_finally.
  apply keeps_bind; [apply keeps_cloneWiki|]. intros dir.
  apply keeps_bind; [apply keeps_set_tmpDir|]. intros _. apply Hs.
Qed.

Lemma run_keeps_remotes {A} (op : M A) e w :
  keeps_remotes op → remotes (run op e w).2 = remotes w.
Proof.
  intros H. unfold run. specialize (H e (initial w)). unfold initial in H.
  by destruct (op e _) as [r s].
Qed.

Lemma readWikiPage_keeps args e w :
  remotes (run (readWikiPage args) e w).2 = remotes w.
Proof.
  apply run_keeps_remotes. rewrite readWikiPage_scoped.
  apply keeps_scoped, keeps_read_steps.
Qed.

Lemma listWikiPages_keeps cmp args e w :
  remotes (run (listWikiPages cmp args) e w).2 = remotes w.
Proof.
  apply run_keeps_remotes. rewrite listWikiPages_scoped.
  apply keeps_scoped, keeps_list_steps.
Qed.

(** X5.  The read and the list operations never change a remote store,
    whatever they return and whatever the environment rejects. *)
Theorem read_and_list_change_nothing e w :
  (∀ args, remotes (run (readWikiPage args) e w).2 = remotes w)
  ∧ (∀ localeCompare args,
       remotes (run (listWikiPages localeCompare args) e w).2 = remotes w).
Proof.
  split.
  - intros args. apply readWikiPage_keeps.
  - intros cmp args. apply listWikiPages_keeps.
Qed.

(** ** No partial change *)

Lemma all_or_nothing_keeps {A} (m : M A) : keeps_remotes m → all_or_nothing m.
Proof. intros H e s. right. apply H. Qed.

Lemma all_or_nothing_bind {A B} (m : M A) (k : A → M B) :
  keeps_remotes m → (∀ a, all_or_nothing (k a)) → all_or_nothing (m ≫= k).
Proof.
  intros Hm Hk e s. rewrite run_bind. specialize (Hm e s).
  destruct (m e s) as [[a|err] s']; simpl in *; [|by right].
  destruct (Hk a e s') as [Hok|Hsame]; [by left|right]. by rewrite Hsame.
Qed.

(** The push is the last thing that can fail, and a rejected push has
    changed nothing. *)
Lemma all_or_nothing_push {A} dir (r : A) :
  all_or_nothing (git_push dir;; ret r).
Proof.
  intros e s. unfold_prims. red_state.
  repeat case_match; simplify_eq/=; (by left; eexists) || by right.
Qed.

Ltac all_or_nothing_steps :=
  cbv zeta;
  repeat first
    [ apply all_or_nothing_push
    | apply all_or_nothing_bind;
      [first [ solve [auto with keeps]
             | apply keeps_try_catch; [|intros ?]; solve [auto with keeps] ]
      | intros ? ] ].

Lemma all_or_nothing_write_steps args dir : all_or_nothing (write_steps args dir).
Proof. unfold write_steps. all_or_nothing_steps. Qed.

Lemma all_or_nothing_append_steps args dir :
  all_or_nothing (append_steps args dir).
Proof. unfold append_steps. all_or_nothing_steps. Qed.

Lemma all_or_nothing_delete_steps args dir :
  all_or_nothing (delete_steps args dir).
Proof. unfold delete_steps. all_or_nothing_steps. Qed.

Lemma all_or_nothing_scoped {A} config (steps : jsstring → M A) e w err :
  (∀ dir, all_or_nothing (steps dir)) →
  (run (scoped config steps) e w).1 = Throw err →
  remotes (run (scoped config steps) e w).2 = remotes w.
Proof.
  intros Hs. unfold run, scoped. rewrite run_bind.
  cbn [set_tmpDir the_world var_tmpDir]. rewrite run_try_finally. cbn [fst snd].
  rewrite remotes_released. fold (initial w).
  assert (Hbody : all_or_nothing
            (cloneWiki config ≫= λ dir, set_tmpDir (Some dir);; steps dir)).
  { apply all_or_nothing_bind; [apply keeps_cloneWiki|]. intros dir.
    apply all_or_nothing_bind; [apply keeps_set_tmpDir|]. intros _. apply Hs. }
  destruct (Hbody e (initial w)) as [[a Hok]|Hsame]; [|done].
  rewrite Hok. discriminate.
Qed.

(** X6.  No partial change: when any of the five operations ends with an
    error, at whatever step, every remote store is as it was before the
    operation. *)
Theorem failed_operation_changes_nothing i e w err :
  error_of i e w = Some err →
  remotes (world_after i e w) = remotes w.
Proof.
  assert (Hthrown : ∀ A (r : result A), thrown r = Some err → r = Throw err).
  { intros A [a|err'] [=]. by subst. }
  destruct i as [a|a|a|cmp a|a]; cbn [error_of world_after]; intros H;
    apply Hthrown in H.
  - rewrite writeWikiPage_scoped in *.
    eapply all_or_nothing_scoped; [apply all_or_nothing_write_steps|exact H].
  - apply readWikiPage_keeps.
  - rewrite appendToWikiPage_scoped in *.
    eapply all_or_nothing_scoped; [apply all_or_nothing_append_steps|exact H].
  - apply listWikiPages_keeps.
  - rewrite deleteWikiPage_scoped in *.
    eapply all_or_nothing_scoped; [apply all_or_nothing_delete_steps|exact H].
Qed.

(** A write whose push is rejected: the error is reported and the home
    page of the example store is what it was. *)
Lemma failed_operation_changes_nothing_witness :
  error_of (Write (demo_write "Home" "Changed")) rejecting_env demo_world
  = Some (External GitPush (js "non-fast-forward"))
  ∧ remotes (world_after (Write (demo_write "Home" "Changed")) rejecting_env
               demo_world) = remotes demo_world.
Proof.
  assert (H : error_of (Write (demo_write "Home" "Changed")) rejecting_env
                demo_world = Some (External GitPush (js "non-fast-forward")))
    by (vm_compute; reflexivity).
  split; [exact H|].
  exact (failed_operation_changes_nothing _ _ _ _ H).
Defined.

(** ** The temporary directories *)

Lemma confined_ret dir {A} (a : A) : confined dir (ret a).
Proof. by intros e s d _. Qed.

Lemma confined_throw dir {A} err : confined dir (@throw A err).
Proof. by intros e s d _. Qed.

Lemma confined_bind dir {A B} (m : M A) (k : A → M B) :
  confined dir m → (∀ a, confined dir (k a)) → confined dir (m ≫= k).
Proof.
  intros Hm Hk e s d Hd. rewrite run_bind. specialize (Hm e s d Hd).
  destruct (m e s) as [[a|err] s']; simpl in *; [|done].
  by rewrite Hk.
Qed.

Lemma confined_try_catch dir {A} (m : M A) h :
  confined dir m → (∀ err, confined dir (h err)) → confined dir (try_catch m h).
Proof.
  intros Hm Hh e s d Hd. rewrite run_try_catch. specialize (Hm e s d Hd).
  destruct (m e s) as [[a|err] s']; simpl in *; [done|].
  by rewrite Hh.
Qed.

Ltac confined_prim :=
  let e := fresh "e" in let s := fresh "s" in let d := fresh "d" in
  let Hd := fresh "Hd" in
  intros e s d Hd; unfold_prims; red_state;
  repeat case_match; simplify_eq/=; rewrite ?lookup_insert_ne by done;
  reflexivity.

Lemma confined_access dir f : confined dir (fs_access (path_join dir f)).
Proof. confined_prim. Qed.

Lemma confined_readFile dir f : confined dir (fs_readFile (path_join dir f)).
Proof. confined_prim. Qed.

Lemma confined_writeFile dir f data :
  confined dir (fs_writeFile (path_join dir f) data).
Proof. confined_prim. Qed.

Lemma confined_unlink dir f : confined dir (fs_unlink (path_join dir f)).
Proof. confined_prim. Qed.

Lemma confined_readdir dir : confined dir (fs_readdir dir).
Proof. confined_prim. Qed.

Lemma confined_stat_size dir f : confined dir (fs_stat_size (path_join dir f)).
Proof. confined_prim. Qed.

Lemma confined_add dir f : confined dir (git_add dir f).
Proof. confined_prim. Qed.

Lemma confined_commit dir msg : confined dir (git_commit dir msg).
Proof. confined_prim. Qed.

Lemma confined_push dir : confined dir (git_push dir).
Proof. confined_prim. Qed.

Lemma confined_stat_each dir mdFiles pageInfos :
  confined dir (stat_each dir mdFiles pageInfos).
Proof.
  revert pageInfos. induction mdFiles as [|file rest IH]; intros pageInfos.
  - apply confined_ret.
  - apply confined_bind; [apply confined_stat_size | intros size; apply IH].
Qed.

Create HintDb confined discriminated.
#[local] Hint Resolve confined_ret confined_throw confined_access
  confined_readFile confined_writeFile confined_unlink confined_readdir
  confined_stat_size confined_add confined_commit confined_push
  confined_stat_each : confined.

Ltac confined_steps :=
  cbv zeta;
  repeat first
    [ solve [auto with confined]
    | apply confined_try_catch; [|intros ?]
    | apply confined_bind; [|intros ?] ].

Lemma confined_write_steps args dir : confined dir (write_steps args dir).
Proof. unfold write_steps. confined_steps. Qed.

Lemma confined_append_steps args dir : confined dir (append_steps args dir).
Proof. unfold append_steps. confined_steps. Qed.

Lemma confined_list_steps cmp dir : confined dir (list_steps cmp dir).
Proof. unfold list_steps. confined_steps. Qed.

Lemma confined_delete_steps args dir : confined dir (delete_steps args dir).
Proof. unfold delete_steps. confined_steps. Qed.

Lemma confined_read_steps args dir : confined dir (read_steps args dir).
Proof. unfold read_steps. confined_steps. Qed.

(** [cloneWiki] when [mkdtemp] does not give a directory: nothing else is
    called and no directory is touched. *)
Lemma cloneWiki_no_directory config e s :
  fault e Mkdtemp (tmp_prefix e) ≠ None ∨ dirs (the_world s) !! tmp_dir e ≠ None →
  ∃ err, cloneWiki config e s
         = (Throw (External Mkdtemp err),
            log_event (Called Mkdtemp (tmp_prefix e)) s).
Proof.
  intros H. unfold cloneWiki. rewrite run_bind. cbn [get_env].
  fold (tmp_prefix e). rewrite run_bind.
  unfold_prims. red_state. fold (tmp_dir e).
  destruct (fault e Mkdtemp (tmp_prefix e)) as [m|]; [by eexists|].
  red_state. destruct (dirs (the_world s) !! tmp_dir e); [by eexists|].
  by destruct H.
Qed.

Lemma clone_error_none e w url :
  clone_error e w url = None →
  fault e GitClone url = None ∧ ∃ files, remotes w !! url = Some files.
Proof.
  unfold clone_error. destruct (fault e GitClone url); [done|].
  destruct (remotes w !! url) as [files|]; [|done]. by eauto.
Qed.

(** After a scoped operation whose removal is not rejected, the
    directories are those from before, on every path. *)
Lemma scoped_leaves_no_directory {A} config (steps : jsstring → M A) e w :
  (∀ dir, confined dir (steps dir)) →
  (∀ dir, quiet (steps dir)) →
  fault e Rm (tmp_dir e) = None →
  dirs (run (scoped config steps) e w).2 = dirs w.
Proof.
  intros Hc Hq Hrm.
  destruct (fault e Mkdtemp (tmp_prefix e)) as [m|] eqn:Hmk;
    [|destruct (dirs w !! tmp_dir e) as [c|] eqn:Hfresh].
  1,2: unfold run, scoped; rewrite run_bind;
       cbn [set_tmpDir the_world var_tmpDir];
       rewrite run_try_finally, run_bind; fold (initial w);
       destruct (cloneWiki_no_directory config e (initial w)) as [err ->];
       [ (left; by rewrite Hmk)
         || (right; cbn [initial the_world]; by rewrite Hfresh)
       | cbn [fst snd]; by rewrite released_none ].
  destruct (clone_error e w (config_url config)) as [err|] eqn:Hcl.
  - rewrite (scoped_clone_failure config steps e w err Hmk Hfresh Hcl), Hrm.
    red_state. by rewrite delete_insert_eq, delete_id.
  - apply clone_error_none in Hcl as [Hgc [files Hrem]].
    assert (Hacq : acquires e w (config_url config) files) by done.
    rewrite (run_scoped _ _ _ _ files Hacq). cbn [snd].
    pose proof (Hc (tmp_dir e) e (holding e (config_url config) files w)) as Hd.
    destruct (Hq (tmp_dir e) e (holding e (config_url config) files w))
      as (Hv & _ & _).
    rewrite (released_some _ _ (tmp_dir e)) by (done || apply truthy_tmp_dir).
    rewrite Hrm. red_state. apply map_eq. intros d.
    destruct (decide (d = tmp_dir e)) as [->|Hne].
    + by rewrite lookup_delete_eq.
    + rewrite lookup_delete_ne, Hd by done. red_state.
      by rewrite !lookup_insert_ne.
Qed.

(** X7.  No temporary directory is left behind: whatever any of the five
    operations does and wherever it fails, when the removal itself is not
    rejected the directories after the operation are exactly those from
    before it. *)
Theorem no_directory_left i e w :
  fault e Rm (tmp_dir e) = None →
  dirs (world_after i e w) = dirs w.
Proof.
  intros Hrm. destruct i as [a|a|a|cmp a|a]; cbn [world_after].
  - rewrite writeWikiPage_scoped. apply scoped_leaves_no_directory;
      [intros dir; apply confined_write_steps
      |intros dir; apply quiet_write_steps|done].
  - rewrite readWikiPage_scoped. apply scoped_leaves_no_directory;
      [intros dir; apply confined_read_steps
      |intros dir; apply quiet_read_steps|done].
  - rewrite appendToWikiPage_scoped. apply scoped_leaves_no_directory;
      [intros dir; apply confined_append_steps
      |intros dir; apply quiet_append_steps|done].
  - rewrite listWikiPages_scoped. apply scoped_leaves_no_directory;
      [intros dir; apply confined_list_steps
      |intros dir; apply quiet_list_steps|done].
  - rewrite deleteWikiPage_scoped. apply scoped_leaves_no_directory;
      [intros dir; apply confined_delete_steps
      |intros dir; apply quiet_delete_steps|done].
Qed.

(** A write whose push is rejected leaves no directory. *)
Lemma no_directory_left_witness :
  fault rejecting_env Rm (tmp_dir rejecting_env) = None
  ∧ dirs (world_after (Write (demo_write "Home" "Changed")) rejecting_env
            demo_world) = dirs demo_world.
Proof.
  split; [reflexivity|].
  exact (no_directory_left (Write (demo_write "Home" "Changed")) rejecting_env
           demo_world eq_refl).
Defined.

(** * What the operations do when nothing is rejected *)

(** ** Write *)



Lemma write_steps_log args e url files w :
  no_fault_but_rm e →
  let fileName := normalizePageName (WriteWikiPageArgs.pageName args) in
  ∃ r s',
    write_steps args (tmp_dir e) e (holding e url files w) = (Ok r, s')
    ∧ var_tmpDir s' = Some (tmp_dir e)
    ∧ log (the_world s')
      = log w
        ++ [Called Mkdtemp (tmp_prefix e);
            Called GitClone url;
            Called WriteFile (path_string (path_join (tmp_dir e) fileName));
            Called GitAdd fileName;
            Called GitCommit
              (or_default (WriteWikiPageArgs.commitMessage args)
                          (js "Update " ++ fileName));
            Called GitPush (js "master")].
Proof.
  intros Hnf fileName. unfold write_steps. cbv zeta. fold fileName.
  run_prim fs_writeFile_run Hnf.
  run_prim git_add_run Hnf.
  run_prim git_commit_run Hnf.
  run_prim git_push_run Hnf.
  eexists _, _. split; [reflexivity|]. red_state. split; [reflexivity|].
  by rewrite <- !(assoc_L (++)).
Qed.

(** X9.  The calls of a successful write, in order: [mkdtemp], the clone
    of the wiki URL, the write of the page file, [git add] of the file
    name, [git commit], [git push] to [master], and the removal of the
    directory.  The commit message is the one given, or
    "Update <file name>" when none or an empty one is given. *)
Theorem writeWikiPage_calls args e w files :
  let url := config_url (target (Write args)) in
  let fileName := normalizePageName (WriteWikiPageArgs.pageName args) in
  let message :=
    match WriteWikiPageArgs.commitMessage args with
    | Some (c :: m) => c :: m
    | Some [] | None => js "Update " ++ fileName
    end in
  no_fault_but_rm e →
  acquires e w url files →
  ∃ post,
    log (run (writeWikiPage args) e w).2
    = log w
      ++ [Called Mkdtemp (tmp_prefix e);
          Called GitClone url;
          Called WriteFile (path_string (path_join (tmp_dir e) fileName));
          Called GitAdd fileName;
          Called GitCommit message;
          Called GitPush (js "master");
          Called Rm (tmp_dir e)]
      ++ post
    ∧ (post = [] ∨ post = [Warned (tmp_dir e)]).
Proof.
  intros url fileName message Hnf Hacq.
  rewrite writeWikiPage_scoped, (run_scoped _ _ _ _ files Hacq). cbn [snd].
  destruct (write_steps_log args e url files w Hnf) as (r & s' & Hs & Hv & Hl).
  fold url. rewrite Hs. cbn [snd].
  rewrite (released_some _ _ (tmp_dir e)) by (done || apply truthy_tmp_dir).
  assert (Hm : or_default (WriteWikiPageArgs.commitMessage args)
                 (js "Update " ++ fileName) = message).
  { unfold or_default, message.
    by destruct (WriteWikiPageArgs.commitMessage args) as [[|c m]|]. }
  fold fileName in Hl. rewrite Hm in Hl.
  destruct (fault e Rm (tmp_dir e)); red_state; rewrite Hl.
  - exists [Warned (tmp_dir e)]. split; [|by right].
    by rewrite <- !(assoc_L (++)).
  - exists []. split; [|by left]. by rewrite <- !(assoc_L (++)).
Qed.

Lemma writeWikiPage_calls_witness :
  no_fault_but_rm demo_env
  ∧ acquires demo_env demo_world (config_url demo_config) demo_files
  ∧ Called GitCommit (js "Update Home.md")
    ∈ log (run (writeWikiPage
                  (WriteWikiPageArgs.Build_t (js "octo") (js "notes")
                     (js "t0ken") (js "Home") (js "text") (Some [])))
             demo_env demo_world).2.
Proof.
  assert (Hnf : no_fault_but_rm demo_env) by done.
  split; [exact Hnf|]. split; [exact demo_acquires|].
  destruct (writeWikiPage_calls
              (WriteWikiPageArgs.Build_t (js "octo") (js "notes") (js "t0ken")
                 (js "Home") (js "text") (Some []))
              demo_env demo_world demo_files Hnf demo_acquires)
    as (post & -> & _).
  apply elem_of_app. right. apply elem_of_app. left.
  do 4 apply list_elem_of_further. apply list_elem_of_here.
Defined.

(** ** Delete *)

Lemma delete_steps_ok args e url files w b :
  no_fault_but_rm e →
  let fileName := normalizePageName (DeleteWikiPageArgs.pageName args) in
  files !! fileName = Some b →
  ∃ s',
    delete_steps args (tmp_dir e) e (holding e url files w)
    = (Ok (PageResult.Build_t true fileName), s')
    ∧ remotes (the_world s') = <[url := delete fileName files]> (remotes w).
Proof.
  intros Hnf fileName Hf. unfold delete_steps. cbv zeta. fold fileName.
  rewrite run_bind, run_try_catch. erewrite fs_access_run by side.
  rewrite Hnf by done. red_state. rewrite Hf.
  rewrite run_bind. erewrite fs_unlink_run by side.
  rewrite Hnf by done. red_state. rewrite Hf. red_state.
  rewrite run_bind. erewrite git_add_run by side.
  rewrite Hnf by done. red_state. rewrite lookup_delete_eq, Hf.
  run_prim git_commit_run Hnf.
  run_prim git_push_run Hnf.
  eexists. split; [reflexivity|]. red_state. reflexivity.
Qed.

Lemma deleteWikiPage_ok args e w files b :
  no_fault_but_rm e →
  acquires e w (config_url (target (Delete args))) files →
  let fileName := normalizePageName (DeleteWikiPageArgs.pageName args) in
  files !! fileName = Some b →
  (run (deleteWikiPage args) e w).1 = Ok (PageResult.Build_t true fileName)
  ∧ remotes (run (deleteWikiPage args) e w).2
    = <[config_url (target (Delete args)) := delete fileName files]> (remotes w).
Proof.
  intros Hnf Hacq fileName Hf. rewrite deleteWikiPage_scoped.
  destruct (run_scoped_result _ (delete_steps args) e w files Hacq) as [-> ->].
  destruct (delete_steps_ok args e (config_url (target (Delete args))) files w
              b Hnf Hf) as (s' & Hs & Hr).
  rewrite Hs. cbn [fst snd]. by rewrite Hr.
Qed.



(** X11.  Creating a page and deleting it again restores the remote
    stores exactly. *)
Theorem write_then_delete_restores owner repo token pageName content msg msg'
    e1 e2 w files :
  let url := getWikiUrl owner repo token in
  let w1 :=
    (run (writeWikiPage
            (WriteWikiPageArgs.Build_t owner repo token pageName content msg))
       e1 w).2 in
  let w2 :=
    (run (deleteWikiPage
            (DeleteWikiPageArgs.Build_t owner repo token pageName msg'))
       e2 w1).2 in
  no_fault_but_rm e1 →
  acquires e1 w url files →
  files !! normalizePageName pageName = None →
  no_fault_but_rm e2 →
  dirs w1 !! tmp_dir e2 = None →
  remotes w2 = remotes w.
Proof.
  intros url w1 w2 Hnf1 Hacq1 Hf Hnf2 Hfresh.
  destruct (writeWikiPage_ok
              (WriteWikiPageArgs.Build_t owner repo token pageName content msg)
              e1 w files Hnf1 Hacq1) as [_ Hrem1].
  cbn [WriteWikiPageArgs.pageName WriteWikiPageArgs.content] in Hrem1.
  change (config_url (target (Write _))) with url in Hrem1. fold w1 in Hrem1.
  destruct (deleteWikiPage_ok
              (DeleteWikiPageArgs.Build_t owner repo token pageName msg')
              e2 w1
              (<[normalizePageName pageName := utf8_encode content]> files)
              (utf8_encode content) Hnf2) as [_ Hrem2].
  { repeat split; [by apply Hnf2|exact Hfresh|by apply Hnf2|].
    change (config_url (target (Delete _))) with url.
    rewrite Hrem1. apply lookup_insert_eq. }
  { apply lookup_insert_eq. }
  cbn [DeleteWikiPageArgs.pageName] in Hrem2.
  change (config_url (target (Delete _))) with url in Hrem2. fold w2 in Hrem2.
  rewrite Hrem2, Hrem1, insert_insert_eq, delete_insert_eq, delete_id by done.
  apply insert_id. by destruct Hacq1 as (_ & _ & _ & ?).
Qed.

Lemma write_then_delete_restores_witness :
  let w1 := (run (writeWikiPage (demo_write "Draft" "text")) demo_env
               demo_world).2 in
  no_fault_but_rm demo_env
  ∧ acquires demo_env demo_world (config_url demo_config) demo_files
  ∧ demo_files !! normalizePageName (js "Draft") = None
  ∧ dirs w1 !! tmp_dir demo_env = None
  ∧ remotes (run (deleteWikiPage (demo_delete "Draft")) demo_env w1).2
    = remotes demo_world.
Proof.
  intros w1.
  assert (Hnf : no_fault_but_rm demo_env) by done.
  assert (Hf : demo_files !! normalizePageName (js "Draft") = None)
    by (vm_compute; reflexivity).
  assert (Hfresh : dirs w1 !! tmp_dir demo_env = None)
    by (vm_compute; reflexivity).
  split; [exact Hnf|]. split; [exact demo_acquires|]. split; [exact Hf|].
  split; [exact Hfresh|].
  exact (write_then_delete_restores (js "octo") (js "notes") (js "t0ken")
           (js "Draft") (js "text") None None demo_env demo_env demo_world
           demo_files Hnf demo_acquires Hf Hnf Hfresh).
Defined.

(** ** The existence check *)

(** X12.  The read and the delete operations report a page as missing
    whenever the existence check is rejected, also when the page file is
    there: the reason of the rejection is not reported. *)
Theorem rejected_access_reported_missing owner repo token pageName e w files
    reason :
  let fileName := normalizePageName pageName in
  acquires e w (getWikiUrl owner repo token) files →
  fault e Access (path_string (path_join (tmp_dir e) fileName)) = Some reason →
  (∀ content msg,
     (run (readWikiPage
             (WriteWikiPageArgs.Build_t owner repo token pageName content msg))
        e w).1 = Throw (PageNotFound fileName))
  ∧ (∀ msg,
       (run (deleteWikiPage
               (DeleteWikiPageArgs.Build_t owner repo token pageName msg))
          e w).1 = Throw (PageNotFound fileName)).
Proof.
  intros fileName Hacq Hfault.
  assert (Hcheck : ∀ s c,
            dirs (the_world s) !! tmp_dir e = Some c →
            try_catch (fs_access (path_join (tmp_dir e) fileName))
              (λ _, throw (PageNotFound fileName)) e s
            = (Throw (PageNotFound fileName),
               log_event
                 (Called Access (path_string (path_join (tmp_dir e) fileName)))
                 s)).
  { intros s c Hd. rewrite run_try_catch. erewrite fs_access_run by exact Hd.
    by rewrite Hfault. }
  split.
  - intros content msg. rewrite readWikiPage_scoped.
    destruct (run_scoped_result
                (target (Read (WriteWikiPageArgs.Build_t owner repo token
                                 pageName content msg)))
                (read_steps (WriteWikiPageArgs.Build_t owner repo token
                               pageName content msg)) e w files Hacq)
      as [-> _].
    unfold read_steps. cbv zeta. rewrite run_bind.
    cbn [WriteWikiPageArgs.pageName]. fold fileName.
    erewrite Hcheck by side. reflexivity.
  - intros msg. rewrite deleteWikiPage_scoped.
    destruct (run_scoped_result
                (target (Delete (DeleteWikiPageArgs.Build_t owner repo token
                                   pageName msg)))
                (delete_steps (DeleteWikiPageArgs.Build_t owner repo token
                                 pageName msg)) e w files Hacq)
      as [-> _].
    unfold delete_steps. cbv zeta. rewrite run_bind.
    cbn [DeleteWikiPageArgs.pageName]. fold fileName.
    erewrite Hcheck by side. reflexivity.
Qed.

(** The home page of the example store exists, but the check is
    rejected. *)
Lemma rejected_access_reported_missing_witness :
  acquires inaccessible_env demo_world
    (getWikiUrl (js "octo") (js "notes") (js "t0ken")) demo_files
  ∧ fault inaccessible_env Access (js "/tmp/wiki-Ab3dE9/Home.md")
    = Some (js "EACCES")
  ∧ is_Some (demo_files !! js "Home.md")
  ∧ (run (readWikiPage (demo_write "Home" "")) inaccessible_env demo_world).1
    = Throw (PageNotFound (js "Home.md")).
Proof.
  assert (Hacq : acquires inaccessible_env demo_world
                   (getWikiUrl (js "octo") (js "notes") (js "t0ken"))
                   demo_files) by exact demo_acquires.
  split; [exact Hacq|]. split; [reflexivity|].
  split; [by eexists|].
  exact (proj1 (rejected_access_reported_missing (js "octo") (js "notes")
                  (js "t0ken") (js "Home") inaccessible_env demo_world
                  demo_files (js "EACCES") Hacq eq_refl) (js "") None).
Defined.

(** ** Appending, then reading *)








(** ** When no working copy is acquired *)

Lemma scoped_mkdtemp_failure {A} config (steps : jsstring → M A) e w reason :
  fault e Mkdtemp (tmp_prefix e) = Some reason →
  run (scoped config steps) e w
  = (Throw (External Mkdtemp reason),
     with_log (log w ++ [Called Mkdtemp (tmp_prefix e)]) w).
Proof.
  intros Hmk. unfold run, scoped. rewrite run_bind.
  cbn [set_tmpDir the_world var_tmpDir].
  rewrite run_try_finally, run_bind. fold (initial w).
  assert (Hclone : cloneWiki config e (initial w)
                   = (Throw (External Mkdtemp reason),
                      log_event (Called Mkdtemp (tmp_prefix e)) (initial w))).
  { unfold cloneWiki. unfold_prims. fold (tmp_prefix e). red_state.
    by rewrite Hmk. }
  rewrite Hclone. cbn [fst snd]. by rewrite released_none.
Qed.

(** X14.  When the temporary directory cannot be made, each of the five
    operations throws that rejection as it is, and makes no other call:
    nothing is cloned and nothing is removed. *)
Theorem mkdtemp_failure i e w reason :
  fault e Mkdtemp (tmp_prefix e) = Some reason →
  error_of i e w = Some (External Mkdtemp reason)
  ∧ world_after i e w = with_log (log w ++ [Called Mkdtemp (tmp_prefix e)]) w.
Proof.
  intros Hmk.
  destruct i as [a|a|a|cmp a|a]; cbn [error_of world_after];
    [rewrite writeWikiPage_scoped | rewrite readWikiPage_scoped
    | rewrite appendToWikiPage_scoped | rewrite listWikiPages_scoped
    | rewrite deleteWikiPage_scoped];
    by rewrite (scoped_mkdtemp_failure _ _ e w reason Hmk).
Qed.

Lemma mkdtemp_failure_witness :
  fault exhausted_env Mkdtemp (tmp_prefix exhausted_env) = Some (js "ENOSPC")
  ∧ error_of (Write (demo_write "Home" "text")) exhausted_env demo_world
    = Some (External Mkdtemp (js "ENOSPC"))
  ∧ log (world_after (Write (demo_write "Home" "text")) exhausted_env
           demo_world)
    = [Called Mkdtemp (js "/tmp/wiki-")].
Proof.
  split; [reflexivity|].
  destruct (mkdtemp_failure (Write (demo_write "Home" "text")) exhausted_env
              demo_world (js "ENOSPC") eq_refl) as [Herr Hw].
  split; [exact Herr|]. by rewrite Hw.
Defined.

(** X15.  When the clone fails and the fresh directory is removed, each
    of the five operations throws an error whose message is
    [Failed to clone wiki: ] followed by the message of the clone; the
    calls are the making of the directory, the clone and one removal, and
    the stores and the directories are as before. *)
Theorem failed_clone_reported i e w err :
  fault e Mkdtemp (tmp_prefix e) = None →
  dirs w !! tmp_dir e = None →
  clone_error e w (config_url (target i)) = Some err →
  fault e Rm (tmp_dir e) = None →
  ∃ error,
    error_of i e w = Some error
    ∧ message error = js "Failed to clone wiki: " ++ err
    ∧ remotes (world_after i e w) = remotes w
    ∧ dirs (world_after i e w) = dirs w
    ∧ log (world_after i e w)
      = log w ++ [Called Mkdtemp (tmp_prefix e);
                  Called GitClone (config_url (target i));
                  Called Rm (tmp_dir e)].
Proof.
  intros Hmk Hfresh Hcl Hrm.
  pose proof (invocation_clone_failure i e w err Hmk Hfresh Hcl) as H.
  rewrite Hrm in H. cbv zeta in H. injection H as -> ->.
  exists (CloneFailed err). split; [reflexivity|]. split; [reflexivity|].
  red_state. split; [reflexivity|]. split.
  - by rewrite delete_insert_eq, delete_id.
  - by rewrite <- !(assoc_L (++)).
Qed.

Lemma failed_clone_reported_witness :
  clone_error refusing_env demo_world (config_url demo_config)
  = Some (js "Authentication failed")
  ∧ ∃ error,
      error_of (Read (demo_write "Home" "")) refusing_env demo_world
      = Some error
      ∧ message error = js "Failed to clone wiki: Authentication failed"
      ∧ remotes (world_after (Read (demo_write "Home" "")) refusing_env
                   demo_world) = remotes demo_world.
Proof.
  split; [reflexivity|].
  destruct (failed_clone_reported (Read (demo_write "Home" "")) refusing_env
              demo_world (js "Authentication failed") eq_refl eq_refl eq_refl
              eq_refl) as (error & Herr & Hmsg & Hrem & _).
  exists error. split; [exact Herr|]. split; [exact Hmsg | exact Hrem].
Defined.

(** ** Listing *)

Lemma md_files_page_info files r :
  r ∈ List.map (page_info files) (md_files files)
  ↔ ∃ f b, files !! f = Some b ∧ endsWith f md = true
           ∧ r = WikiPageInfo.Build_t (replace_first md [] f) f
                   (N.of_nat (length b)).
Proof.
  rewrite list_elem_of_In, in_map_iff. unfold md_files. split.
  - intros (f & <- & Hf). apply filter_In in Hf as [Hf Hmd].
    apply list_elem_of_In, list_elem_of_fmap in Hf as ([f' b] & -> & Hf).
    apply elem_of_map_to_list in Hf. exists f', b. cbn [fst] in *.
    split; [done|]. split; [done|]. unfold page_info. by rewrite Hf.
  - intros (f & b & Hf & Hmd & ->). exists f. split.
    + unfold page_info. by rewrite Hf.
    + apply filter_In. split; [|done].
      apply list_elem_of_In, list_elem_of_fmap. exists (f, b).
      split; [done|]. by apply elem_of_map_to_list.
Qed.

(** X16.  The listing has one record for each file of the store whose
    name ends with [.md] and no other record: the path is the file name,
    the name is the file name without its first [.md], the size is the
    number of bytes of the file.  No two records have the same path, and
    under a comparator that orders any two names the records are sorted
    by name. *)
Theorem listWikiPages_entries cmp args e w files :
  no_fault_but_rm e →
  acquires e w (config_url (target (List cmp args))) files →
  ∃ records,
    (run (listWikiPages cmp args) e w).1 = Ok records
    ∧ (∀ r, r ∈ records
            ↔ ∃ f b, files !! f = Some b ∧ endsWith f md = true
                     ∧ r = WikiPageInfo.Build_t (replace_first md [] f) f
                             (N.of_nat (length b)))
    ∧ NoDup (List.map WikiPageInfo.path records)
    ∧ (total_cmp cmp →
       Sorted (λ a b, (cmp (WikiPageInfo.name a) (WikiPageInfo.name b) ≤ 0)%Z)
         records).
Proof.
  intros Hnf Hacq.
  destruct (listWikiPages_ok cmp args e w files Hnf Hacq)
    as (records & Hres & Hperm & Hnd & _ & Hsorted).
  exists records. split; [exact Hres|]. split; [|split].
  - intros r. rewrite Hperm. apply md_files_page_info.
  - rewrite Hperm, List.map_map. cbn [page_info WikiPageInfo.path].
    by rewrite List.map_id.
  - exact Hsorted.
Qed.

Lemma listWikiPages_entries_witness :
  no_fault_but_rm demo_env
  ∧ acquires demo_env demo_world (config_url demo_config) demo_files
  ∧ ∃ records,
      (run (listWikiPages code_unit_compare demo_list) demo_env demo_world).1
      = Ok records
      ∧ WikiPageInfo.Build_t (js "Home") (js "Home.md") 7 ∈ records.
Proof.
  assert (Hnf : no_fault_but_rm demo_env) by done.
  split; [exact Hnf|]. split; [exact demo_acquires|].
  destruct (listWikiPages_entries code_unit_compare demo_list demo_env
              demo_world demo_files Hnf demo_acquires)
    as (records & Hres & Hin & _).
  exists records. split; [exact Hres|].
  apply Hin. exists (js "Home.md"), (utf8_encode (js "Welcome")).
  split; [vm_compute; reflexivity|]. split; reflexivity.
Defined.



(** ** The removal of the temporary directory *)

(** X18.  [cleanup] never throws: it calls the removal once and, when
    the removal is rejected, prints one warning and returns.  It touches
    no remote store and no other directory. *)
Theorem cleanup_never_throws tmpDir e s :
  ∃ s',
    cleanup tmpDir e s = (Ok (), s')
    ∧ log (the_world s')
      = log (the_world s)
        ++ Called Rm tmpDir
           :: match fault e Rm tmpDir with
              | Some _ => [Warned tmpDir]
              | None => []
              end
    ∧ dirs (the_world s')
      = match fault e Rm tmpDir with
        | Some _ => dirs (the_world s)
        | None => delete tmpDir (dirs (the_world s))
        end
    ∧ remotes (the_world s') = remotes (the_world s).
Proof.
  unfold cleanup. unfold_prims. red_state.
  destruct (fault e Rm tmpDir); eexists; (split; [reflexivity|]); red_state;
    (split; [|done]); by rewrite <- ?(assoc_L (++)).
Qed.

(** ** The calls of an append and of a delete *)

Lemma append_steps_log args e url files w :
  no_fault_but_rm_and_read e →
  let fileName := normalizePageName (AppendToWikiPageArgs.pageName args) in
  let filePath := path_string (path_join (tmp_dir e) fileName) in
  ∃ r s',
    append_steps args (tmp_dir e) e (holding e url files w) = (Ok r, s')
    ∧ var_tmpDir s' = Some (tmp_dir e)
    ∧ log (the_world s')
      = log w
        ++ [Called Mkdtemp (tmp_prefix e);
            Called GitClone url;
            Called ReadFile filePath;
            Called WriteFile filePath;
            Called GitAdd fileName;
            Called GitCommit
              (or_default (AppendToWikiPageArgs.commitMessage args)
                          (js "Append to " ++ fileName));
            Called GitPush (js "master")].
Proof.
  intros Hnf fileName filePath. unfold append_steps. cbv zeta. fold fileName.
  rewrite run_bind. erewrite read_or_empty by side.
  run_prim fs_writeFile_run Hnf.
  run_prim git_add_run Hnf.
  run_prim git_commit_run Hnf.
  run_prim git_push_run Hnf.
  eexists _, _. split; [reflexivity|]. red_state. split; [reflexivity|].
  by rewrite <- !(assoc_L (++)).
Qed.

(** X19.  The calls of a successful append, in order: [mkdtemp], the
    clone, the read and the write of the page file, [git add],
    [git commit], [git push] to [master], and the removal of the
    directory.  The read is attempted also when it is rejected.  The
    commit message is the one given, or "Append to <file name>" when none
    or an empty one is given. *)
Theorem appendToWikiPage_calls args e w files :
  let url := config_url (target (Append args)) in
  let fileName := normalizePageName (AppendToWikiPageArgs.pageName args) in
  let filePath := path_string (path_join (tmp_dir e) fileName) in
  let message :=
    match AppendToWikiPageArgs.commitMessage args with
    | Some (c :: m) => c :: m
    | Some [] | None => js "Append to " ++ fileName
    end in
  no_fault_but_rm_and_read e →
  acquires e w url files →
  ∃ post,
    log (run (appendToWikiPage args) e w).2
    = log w
      ++ [Called Mkdtemp (tmp_prefix e);
          Called GitClone url;
          Called ReadFile filePath;
          Called WriteFile filePath;
          Called GitAdd fileName;
          Called GitCommit message;
          Called GitPush (js "master");
          Called Rm (tmp_dir e)]
      ++ post
    ∧ (post = [] ∨ post = [Warned (tmp_dir e)]).
Proof.
  intros url fileName filePath message Hnf Hacq.
  rewrite appendToWikiPage_scoped, (run_scoped _ _ _ _ files Hacq). cbn [snd].
  destruct (append_steps_log args e url files w Hnf) as (r & s' & Hs & Hv & Hl).
  fold url. rewrite Hs. cbn [snd].
  rewrite (released_some _ _ (tmp_dir e)) by (done || apply truthy_tmp_dir).
  assert (Hm : or_default (AppendToWikiPageArgs.commitMessage args)
                 (js "Append to " ++ fileName) = message).
  { unfold or_default, message.
    by destruct (AppendToWikiPageArgs.commitMessage args) as [[|c m]|]. }
  fold fileName filePath in Hl. rewrite Hm in Hl.
  destruct (fault e Rm (tmp_dir e)); red_state; rewrite Hl.
  - exists [Warned (tmp_dir e)]. split; [|by right].
    by rewrite <- !(assoc_L (++)).
  - exists []. split; [|by left]. by rewrite <- !(assoc_L (++)).
Qed.

Lemma appendToWikiPage_calls_witness :
  no_fault_but_rm_and_read (unreadable demo_env)
  ∧ acquires (unreadable demo_env) demo_world (config_url demo_config)
      demo_files
  ∧ fault (unreadable demo_env) ReadFile (js "/tmp/wiki-Ab3dE9/Home.md")
    = Some (js "EACCES")
  ∧ Called ReadFile (js "/tmp/wiki-Ab3dE9/Home.md")
    ∈ log (run (appendToWikiPage (demo_append "Home" "More"))
             (unreadable demo_env) demo_world).2
  ∧ Called GitCommit (js "Append to Home.md")
    ∈ log (run (appendToWikiPage (demo_append "Home" "More"))
             (unreadable demo_env) demo_world).2.
Proof.
  assert (Hacq : acquires (unreadable demo_env) demo_world
                   (config_url demo_config) demo_files) by exact demo_acquires.
  assert (Hnf : no_fault_but_rm_and_read (unreadable demo_env)).
  { intros [] a; done. }
  split; [exact Hnf|]. split; [exact Hacq|]. split; [reflexivity|].
  destruct (appendToWikiPage_calls (demo_append "Home" "More")
              (unreadable demo_env) demo_world demo_files Hnf Hacq)
    as (post & -> & _).
  split; apply elem_of_app; right; apply elem_of_app; left.
  - do 2 apply list_elem_of_further. apply list_elem_of_here.
  - do 5 apply list_elem_of_further. apply list_elem_of_here.
Defined.

Lemma delete_steps_log args e url files w b :
  no_fault_but_rm e →
  let fileName := normalizePageName (DeleteWikiPageArgs.pageName args) in
  let filePath := path_string (path_join (tmp_dir e) fileName) in
  files !! fileName = Some b →
  ∃ r s',
    delete_steps args (tmp_dir e) e (holding e url files w) = (Ok r, s')
    ∧ var_tmpDir s' = Some (tmp_dir e)
    ∧ log (the_world s')
      = log w
        ++ [Called Mkdtemp (tmp_prefix e);
            Called GitClone url;
            Called Access filePath;
            Called Unlink filePath;
            Called GitAdd fileName;
            Called GitCommit
              (or_default (DeleteWikiPageArgs.commitMessage args)
                          (js "Delete " ++ fileName));
            Called GitPush (js "master")].
Proof.
  intros Hnf fileName filePath Hf. unfold delete_steps. cbv zeta.
  fold fileName.
  rewrite run_bind, run_try_catch. erewrite fs_access_run by side.
  rewrite Hnf by done. red_state. rewrite Hf.
  rewrite run_bind. erewrite fs_unlink_run by side.
  rewrite Hnf by done. red_state. rewrite Hf. red_state.
  rewrite run_bind. erewrite git_add_run by side.
  rewrite Hnf by done. red_state. rewrite lookup_delete_eq, Hf.
  run_prim git_commit_run Hnf.
  run_prim git_push_run Hnf.
  eexists _, _. split; [reflexivity|]. red_state. split; [reflexivity|].
  by rewrite <- !(assoc_L (++)).
Qed.

(** X20.  The calls of a successful delete, in order: [mkdtemp], the
    clone, the existence check and the unlink of the page file,
    [git add], [git commit], [git push] to [master], and the removal of
    the directory.  The commit message is the one given, or
    "Delete <file name>" when none or an empty one is given. *)
Theorem deleteWikiPage_calls args e w files b :
  let url := config_url (target (Delete args)) in
  let fileName := normalizePageName (DeleteWikiPageArgs.pageName args) in
  let filePath := path_string (path_join (tmp_dir e) fileName) in
  let message :=
    match DeleteWikiPageArgs.commitMessage args with
    | Some (c :: m) => c :: m
    | Some [] | None => js "Delete " ++ fileName
    end in
  no_fault_but_rm e →
  acquires e w url files →
  files !! fileName = Some b →
  ∃ post,
    log (run (deleteWikiPage args) e w).2
    = log w
      ++ [Called Mkdtemp (tmp_prefix e);
          Called GitClone url;
          Called Access filePath;
          Called Unlink filePath;
          Called GitAdd fileName;
          Called GitCommit message;
          Called GitPush (js "master");
          Called Rm (tmp_dir e)]
      ++ post
    ∧ (post = [] ∨ post = [Warned (tmp_dir e)]).
Proof.
  intros url fileName filePath message Hnf Hacq Hf.
  rewrite deleteWikiPage_scoped, (run_scoped _ _ _ _ files Hacq). cbn [snd].
  destruct (delete_steps_log args e url files w b Hnf Hf)
    as (r & s' & Hs & Hv & Hl).
  fold url. rewrite Hs. cbn [snd].
  rewrite (released_some _ _ (tmp_dir e)) by (done || apply truthy_tmp_dir).
  assert (Hm : or_default (DeleteWikiPageArgs.commitMessage args)
                 (js "Delete " ++ fileName) = message).
  { unfold or_default, message.
    by destruct (DeleteWikiPageArgs.commitMessage args) as [[|c m]|]. }
  fold fileName filePath in Hl. rewrite Hm in Hl.
  destruct (fault e Rm (tmp_dir e)); red_state; rewrite Hl.
  - exists [Warned (tmp_dir e)]. split; [|by right].
    by rewrite <- !(assoc_L (++)).
  - exists []. split; [|by left]. by rewrite <- !(assoc_L (++)).
Qed.

Lemma deleteWikiPage_calls_witness :
  no_fault_but_rm demo_env
  ∧ acquires demo_env demo_world (config_url demo_config) demo_files
  ∧ demo_files !! normalizePageName (js "Home") = Some (utf8_encode (js "Welcome"))
  ∧ Called GitCommit (js "Delete Home.md")
    ∈ log (run (deleteWikiPage (demo_delete "Home")) demo_env demo_world).2.
Proof.
  assert (Hnf : no_fault_but_rm demo_env) by done.
  assert (Hf : demo_files !! normalizePageName (js "Home")
               = Some (utf8_encode (js "Welcome"))) by (vm_compute; reflexivity).
  split; [exact Hnf|]. split; [exact demo_acquires|]. split; [exact Hf|].
  destruct (deleteWikiPage_calls (demo_delete "Home") demo_env demo_world
              demo_files _ Hnf demo_acquires Hf) as (post & -> & _).
  apply elem_of_app. right. apply elem_of_app. left.
  do 5 apply list_elem_of_further. apply list_elem_of_here.
Defined.

(** ** Writing twice *)

(** X21.  The last write wins: after two writes of a page, the stores
    are as if only the second had been made. *)
Theorem write_overwrites owner repo token pageName c1 m1 c2 m2 e1 e2 w files :
  let url := getWikiUrl owner repo token in
  let first := WriteWikiPageArgs.Build_t owner repo token pageName c1 m1 in
  let second := WriteWikiPageArgs.Build_t owner repo token pageName c2 m2 in
  let w1 := (run (writeWikiPage first) e1 w).2 in
  no_fault_but_rm e1 →
  acquires e1 w url files →
  no_fault_but_rm e2 →
  dirs w1 !! tmp_dir e2 = None →
  remotes (run (writeWikiPage second) e2 w1).2
  = remotes (run (writeWikiPage second) e1 w).2.
Proof.
  intros url first second w1 Hnf1 Hacq1 Hnf2 Hfresh.
  destruct (writeWikiPage_ok first e1 w files Hnf1 Hacq1) as [_ Hrem1].
  destruct (writeWikiPage_ok second e1 w files Hnf1 Hacq1) as [_ Hrem].
  cbn [first second WriteWikiPageArgs.pageName WriteWikiPageArgs.content]
    in Hrem1, Hrem.
  change (config_url (target (Write _))) with url in Hrem1, Hrem.
  fold first w1 in Hrem1. fold second in Hrem.
  destruct (writeWikiPage_ok second e2 w1
              (<[normalizePageName pageName := utf8_encode c1]> files) Hnf2)
    as [_ Hrem2].
  { repeat split; [by apply Hnf2|exact Hfresh|by apply Hnf2|].
    change (config_url (target (Write _))) with url.
    rewrite Hrem1. apply lookup_insert_eq. }
  cbn [second WriteWikiPageArgs.pageName WriteWikiPageArgs.content] in Hrem2.
  change (config_url (target (Write _))) with url in Hrem2.
  fold second in Hrem2.
  by rewrite Hrem2, Hrem, Hrem1, !insert_insert_eq.
Qed.

Lemma write_overwrites_witness :
  let w1 := (run (writeWikiPage (demo_write "Home" "one")) demo_env
               demo_world).2 in
  no_fault_but_rm demo_env
  ∧ acquires demo_env demo_world (config_url demo_config) demo_files
  ∧ dirs w1 !! tmp_dir demo_env = None
  ∧ remotes (run (writeWikiPage (demo_write "Home" "two")) demo_env w1).2
    = remotes (run (writeWikiPage (demo_write "Home" "two")) demo_env
                 demo_world).2.
Proof.
  intros w1.
  assert (Hnf : no_fault_but_rm demo_env) by done.
  assert (Hfresh : dirs w1 !! tmp_dir demo_env = None)
    by (vm_compute; reflexivity).
  split; [exact Hnf|]. split; [exact demo_acquires|]. split; [exact Hfresh|].
  exact (write_overwrites (js "octo") (js "notes") (js "t0ken") (js "Home")
           (js "one") None (js "two") None demo_env demo_env demo_world
           demo_files Hnf demo_acquires Hnf Hfresh).
Defined.

(** * File names that [git add] reads as options *)

(** A title that starts with whitespace or with a hyphen resolves to a
    file name that starts with a hyphen. *)
Lemma leading_hyphen_title c t :
  is_space c = true ∨ c = 45 →
  startsWith (normalizePageName (c :: t)) (js "-") = true.
Proof.
  intros Hc. rewrite normalizePageName_stem, spec_hyphenate_cons.
  change (js "-") with [45].
  assert (H45 : ∀ r, startsWith (List.filter is_word (45 :: r) ++ md) [45]
                     = true).
  { intros r. cbn [List.filter]. change (is_word 45) with true.
    cbn [app startsWith]. rewrite N.eqb_refl.
    by destruct (List.filter is_word r ++ md). }
  destruct (is_space c) eqn:Hs; [apply H45|].
  destruct Hc as [Hc| ->]; [discriminate|]. apply H45.
Qed.

Lemma file_name_reads_as_option t :
  startsWith (normalizePageName t) (js "-") = true →
  reads_as_option (normalizePageName t) = true.
Proof.
  intros H. unfold reads_as_option. rewrite H. cbn [andb].
  destruct (file_name_stem t) as (stem & -> & _).
  rewrite endsWith_suffix. apply bool_decide_eq_true. by exists stem.
Qed.

Lemma fails_bind {A B} e (m : M A) (k : A → M B) :
  (∀ a, fails e (k a)) → fails e (m ≫= k).
Proof.
  intros Hk s. rewrite run_bind.
  destruct (m e s) as [[a|err] s']; [apply Hk | by eexists].
Qed.

Lemma fails_bind_l {A B} e (m : M A) (k : A → M B) :
  fails e m → fails e (m ≫= k).
Proof.
  intros Hm s. rewrite run_bind. destruct (Hm s) as [err Herr].
  destruct (m e s) as [[a|err'] s']; [discriminate | by eexists].
Qed.

Lemma fails_git_add e dir t :
  git_reads_options e →
  startsWith (normalizePageName t) (js "-") = true →
  fails e (git_add dir (normalizePageName t)).
Proof.
  intros Hgit Ht s. unfold git_add. rewrite run_bind, run_call.
  destruct (fault e GitAdd (normalizePageName t)) eqn:Hf; [by eexists|].
  by destruct (Hgit _ (file_name_reads_as_option t Ht)).
Qed.

Lemma fails_scoped {A} config (steps : jsstring → M A) e w :
  (∀ dir, fails e (steps dir)) →
  ∃ err, (run (scoped config steps) e w).1 = Throw err.
Proof.
  intros Hs. unfold run, scoped. rewrite run_bind.
  cbn [set_tmpDir the_world var_tmpDir]. rewrite run_try_finally. cbn [fst].
  apply fails_bind. intros dir. apply fails_bind. intros _. apply Hs.
Qed.

Lemma fails_write_steps args e dir :
  git_reads_options e →
  startsWith (normalizePageName (WriteWikiPageArgs.pageName args)) (js "-")
  = true →
  fails e (write_steps args dir).
Proof.
  intros Hgit Ht. unfold write_steps. cbv zeta.
  apply fails_bind. intros _. apply fails_bind_l. by apply fails_git_add.
Qed.

Lemma fails_append_steps args e dir :
  git_reads_options e →
  startsWith (normalizePageName (AppendToWikiPageArgs.pageName args)) (js "-")
  = true →
  fails e (append_steps args dir).
Proof.
  intros Hgit Ht. unfold append_steps. cbv zeta.
  apply fails_bind. intros existingContent.
  apply fails_bind. intros _. apply fails_bind_l. by apply fails_git_add.
Qed.

(** The file is written, and the staging of its bare name is rejected. *)
Lemma write_steps_rejected args e url files w reason :
  let fileName := normalizePageName (WriteWikiPageArgs.pageName args) in
  fault e WriteFile (path_string (path_join (tmp_dir e) fileName)) = None →
  fault e GitAdd fileName = Some reason →
  (write_steps args (tmp_dir e) e (holding e url files w)).1
  = Throw (External GitAdd reason).
Proof.
  intros fileName Hw Hadd. unfold write_steps. cbv zeta. fold fileName.
  rewrite run_bind. erewrite fs_writeFile_run by side. rewrite Hw.
  rewrite run_bind. erewrite git_add_run by side. by rewrite Hadd.
Qed.

Lemma append_steps_rejected args e url files w reason :
  let fileName := normalizePageName (AppendToWikiPageArgs.pageName args) in
  fault e WriteFile (path_string (path_join (tmp_dir e) fileName)) = None →
  fault e GitAdd fileName = Some reason →
  (append_steps args (tmp_dir e) e (holding e url files w)).1
  = Throw (External GitAdd reason).
Proof.
  intros fileName Hw Hadd. unfold append_steps. cbv zeta. fold fileName.
  rewrite run_bind. erewrite read_or_empty by side.
  rewrite run_bind. erewrite fs_writeFile_run by side. rewrite Hw.
  rewrite run_bind. erewrite git_add_run by side. by rewrite Hadd.
Qed.

(** What a read returns in a working copy, when the existence check and
    the read are not rejected. *)
Lemma read_steps_run args e url files w :
  let fileName := normalizePageName (WriteWikiPageArgs.pageName args) in
  fault e Access (path_string (path_join (tmp_dir e) fileName)) = None →
  fault e ReadFile (path_string (path_join (tmp_dir e) fileName)) = None →
  (read_steps args (tmp_dir e) e (holding e url files w)).1
  = match files !! fileName with
    | Some b => Ok (ReadResult.Build_t true fileName (utf8_decode b))
    | None => Throw (PageNotFound fileName)
    end.
Proof.
  intros fileName Hacc Hread. unfold read_steps. cbv zeta. fold fileName.
  rewrite run_bind, run_try_catch. erewrite fs_access_run by side.
  rewrite Hacc. red_state.
  destruct (files !! fileName) as [b|] eqn:Hf; [|reflexivity].
  rewrite run_bind. erewrite fs_readFile_run by side.
  rewrite Hread. red_state. by rewrite Hf.
Qed.

(** C3.  The append operation does not succeed for every page: when the
    file name of the title starts with a hyphen (as for every title that
    starts with whitespace or a hyphen) and [git add] reads such an
    argument as an option, the operation throws in every world and
    changes no remote store, so the page is neither created nor
    extended.  When the working copy is acquired and the file is written,
    the error is the rejection of [git add] (line 150). *)
Theorem append_hyphen_title args e w :
  let url := config_url (target (Append args)) in
  let fileName := normalizePageName (AppendToWikiPageArgs.pageName args) in
  git_reads_options e →
  startsWith fileName (js "-") = true →
  (∃ err, (run (appendToWikiPage args) e w).1 = Throw err)
  ∧ remotes (run (appendToWikiPage args) e w).2 = remotes w
  ∧ ∀ files,
      acquires e w url files →
      fault e WriteFile (path_string (path_join (tmp_dir e) fileName)) = None →
      ∃ reason,
        fault e GitAdd fileName = Some reason
        ∧ (run (appendToWikiPage args) e w).1 = Throw (External GitAdd reason).
Proof.
  intros url fileName Hgit Ht.
  assert (Hfails : ∃ err, (run (appendToWikiPage args) e w).1 = Throw err).
  { rewrite appendToWikiPage_scoped. apply fails_scoped. intros dir.
    by apply fails_append_steps. }
  split; [exact Hfails|]. split.
  - destruct Hfails as [err Herr]. rewrite appendToWikiPage_scoped in *.
    apply (all_or_nothing_scoped _ _ e w err); [|exact Herr].
    apply all_or_nothing_append_steps.
  - intros files Hacq Hw.
    destruct (fault e GitAdd fileName) as [reason|] eqn:Hadd.
    + exists reason. split; [reflexivity|].
      rewrite appendToWikiPage_scoped.
      destruct (run_scoped_result _ (append_steps args) e w files Hacq)
        as [-> _].
      by apply append_steps_rejected.
    + by destruct (Hgit _ (file_name_reads_as_option _ Ht)).
Qed.

(** An append to the page titled " Home" of the example store. *)
Lemma append_hyphen_title_witness :
  git_reads_options git_env
  ∧ normalizePageName (js " Home") = js "-Home.md"
  ∧ acquires git_env demo_world (config_url demo_config) demo_files
  ∧ (run (appendToWikiPage (demo_append " Home" "More")) git_env demo_world).1
    = Throw (External GitAdd (js "error: unknown switch"))
  ∧ remotes (run (appendToWikiPage (demo_append " Home" "More")) git_env
               demo_world).2
    = remotes demo_world.
Proof.
  assert (Hgit : git_reads_options git_env).
  { intros f Hf. cbn [git_env fault]. by rewrite Hf. }
  assert (Hacq : acquires git_env demo_world (config_url demo_config)
                   demo_files) by exact demo_acquires.
  split; [exact Hgit|]. split; [reflexivity|]. split; [exact Hacq|].
  destruct (append_hyphen_title (demo_append " Home" "More") git_env
              demo_world Hgit eq_refl) as (_ & Hrem & Hadd).
  destruct (Hadd demo_files Hacq eq_refl) as (reason & Hreason & Hres).
  injection Hreason as <-. split; [exact Hres | exact Hrem].
Defined.

(** C6.  A write followed by a read does not return the written text for
    every page: when the file name of the title starts with a hyphen and
    [git add] reads such an argument as an option, the write throws the
    rejection of [git add] (line 102) after the file has been written in
    the working copy, the remote stores stay as they were, and the read
    of the page returns what the store held before the write, or the
    missing-page error when it held no such page. *)
Theorem write_hyphen_title args e w files c' msg' :
  let url := config_url (target (Write args)) in
  let fileName := normalizePageName (WriteWikiPageArgs.pageName args) in
  let filePath := path_string (path_join (tmp_dir e) fileName) in
  let w1 := (run (writeWikiPage args) e w).2 in
  git_reads_options e →
  startsWith fileName (js "-") = true →
  acquires e w url files →
  fault e WriteFile filePath = None →
  dirs w1 !! tmp_dir e = None →
  fault e Access filePath = None →
  fault e ReadFile filePath = None →
  (∃ reason,
     fault e GitAdd fileName = Some reason
     ∧ (run (writeWikiPage args) e w).1 = Throw (External GitAdd reason))
  ∧ remotes w1 = remotes w
  ∧ (run (readWikiPage
            (WriteWikiPageArgs.Build_t
               (WriteWikiPageArgs.owner args) (WriteWikiPageArgs.repo args)
               (WriteWikiPageArgs.token args) (WriteWikiPageArgs.pageName args)
               c' msg')) e w1).1
    = match files !! fileName with
      | Some b => Ok (ReadResult.Build_t true fileName (utf8_decode b))
      | None => Throw (PageNotFound fileName)
      end.
Proof.
  intros url fileName filePath w1 Hgit Ht Hacq Hw Hfresh Hacc Hread.
  assert (Hres : ∃ reason,
             fault e GitAdd fileName = Some reason
             ∧ (run (writeWikiPage args) e w).1
               = Throw (External GitAdd reason)).
  { destruct (fault e GitAdd fileName) as [reason|] eqn:Hadd.
    - exists reason. split; [reflexivity|]. rewrite writeWikiPage_scoped.
      destruct (run_scoped_result _ (write_steps args) e w files Hacq)
        as [-> _].
      by apply write_steps_rejected.
    - by destruct (Hgit _ (file_name_reads_as_option _ Ht)). }
  assert (Hrem : remotes w1 = remotes w).
  { destruct Hres as (reason & _ & Herr). subst w1.
    rewrite writeWikiPage_scoped in *.
    apply (all_or_nothing_scoped _ _ e w _ (all_or_nothing_write_steps args)
             Herr). }
  split; [exact Hres|]. split; [exact Hrem|].
  assert (Hacq1 : acquires e w1
                    (config_url
                       (target (Read (WriteWikiPageArgs.Build_t
                          (WriteWikiPageArgs.owner args)
                          (WriteWikiPageArgs.repo args)
                          (WriteWikiPageArgs.token args)
                          (WriteWikiPageArgs.pageName args) c' msg'))))
                    files).
  { destruct Hacq as (Hmk & _ & Hcl & Hfiles).
    repeat split; [exact Hmk|exact Hfresh|exact Hcl|].
    rewrite Hrem. exact Hfiles. }
  rewrite readWikiPage_scoped.
  destruct (run_scoped_result _
              (read_steps (WriteWikiPageArgs.Build_t
                 (WriteWikiPageArgs.owner args) (WriteWikiPageArgs.repo args)
                 (WriteWikiPageArgs.token args)
                 (WriteWikiPageArgs.pageName args) c' msg'))
              e w1 files Hacq1) as [-> _].
  by apply read_steps_run.
Qed.

(** A write of "x" to the page titled " !" of the example store, and
    the read that follows. *)
Lemma write_hyphen_title_witness :
  let w1 := (run (writeWikiPage (demo_write " !" "x")) git_env demo_world).2 in
  git_reads_options git_env
  ∧ normalizePageName (js " !") = js "-.md"
  ∧ acquires git_env demo_world (config_url demo_config) demo_files
  ∧ dirs w1 !! tmp_dir git_env = None
  ∧ (run (writeWikiPage (demo_write " !" "x")) git_env demo_world).1
    = Throw (External GitAdd (js "error: unknown switch"))
  ∧ remotes w1 = remotes demo_world
  ∧ (run (readWikiPage (demo_write " !" "")) git_env w1).1
    = Throw (PageNotFound (js "-.md")).
Proof.
  intros w1.
  assert (Hgit : git_reads_options git_env).
  { intros f Hf. cbn [git_env fault]. by rewrite Hf. }
  assert (Hacq : acquires git_env demo_world (config_url demo_config)
                   demo_files) by exact demo_acquires.
  assert (Hfresh : dirs w1 !! tmp_dir git_env = None)
    by (vm_compute; reflexivity).
  split; [exact Hgit|]. split; [reflexivity|]. split; [exact Hacq|].
  split; [exact Hfresh|].
  destruct (write_hyphen_title (demo_write " !" "x") git_env demo_world
              demo_files (js "") None Hgit eq_refl Hacq eq_refl Hfresh
              eq_refl eq_refl) as ((reason & Hreason & Hres) & Hrem & Hread).
  injection Hreason as <-.
  split; [exact Hres|]. split; [exact Hrem | exact Hread].
Defined.
